(** * Chroma-key extraction pipeline ([advanced.py]): embedding and properties

    The development follows [remove_background_advanced] of
    [src/gemini_transparent_background/advanced.py] step by step.  NumPy
    arrays are lists of rows, 8- and 16-bit integers are [Z] with the
    conversions written out, and [float64] values are the binary64 numbers
    of the standard library's [SpecFloat] (bit-exact IEEE 754 arithmetic,
    round to nearest even). *)

From Stdlib Require Import ZArith Lia Bool List String.
From Stdlib Require Import Floats.SpecFloat.
From stdpp Require Import base option list gmap strings.

Local Open Scope Z_scope.

(** ** binary64 arithmetic *)

Module F64.

Definition prec : Z := 53.
Definition emax : Z := 1024.

Definition mul : spec_float -> spec_float -> spec_float := SFmul prec emax.
Definition add : spec_float -> spec_float -> spec_float := SFadd prec emax.
Definition div : spec_float -> spec_float -> spec_float := SFdiv prec emax.
Definition leb : spec_float -> spec_float -> bool := SFleb.
Definition ltb : spec_float -> spec_float -> bool := SFltb.

(** Conversion of an integer to [float64] (exact below [2^53]). *)
Definition of_Z (z : Z) : spec_float := binary_normalize prec emax z 0 false.

Definition zero : spec_float := S754_zero false.
Definition one : spec_float := S754_finite false 4503599627370496 (-52).

(** A value that a Python [float] can hold. *)
Definition valid (x : spec_float) : Prop := valid_binary prec emax x = true.

Definition is_zero (x : spec_float) : bool :=
  match x with S754_zero _ => true | _ => false end.

Definition is_finite (x : spec_float) : bool :=
  match x with S754_zero _ | S754_finite _ _ _ => true | _ => false end.

(** Truncation toward zero, the integer part of a finite value. *)
Definition trunc (x : spec_float) : Z :=
  match x with
  | S754_finite s m e => cond_Zopp s (Z.shiftl (Zpos m) e)
  | _ => 0
  end.

(** Boolean check over the whole 8-bit range. *)
Definition uint8_all (P : Z -> bool) : bool :=
  forallb P (map Z.of_nat (seq 0 256)).

(** [of_Z] represents its argument without rounding. *)
Definition of_Z_exact (z : Z) : bool :=
  match of_Z z with
  | S754_zero false => z =? 0
  | S754_finite false m x => (x <=? 0) && (Z.pos m =? z * 2 ^ (- x))
  | _ => false
  end.

(** Dyadic literal [m * 2^e], used to write Python float literals. *)
Definition of_dyadic (m e : Z) : spec_float := binary_normalize prec emax m e false.

End F64.

(** ** Arrays and pixels *)

(** A 2-D array is a list of rows. *)
Abbreviation Mat A := (list (list A)).

Definition pixel_at {A} (m : Mat A) (i j : nat) : option A :=
  m !! i ≫= λ row, row !! j.

(** Signed coordinates; outside the array there is no sample. *)
Definition sample_at {A} (m : Mat A) (y x : Z) : option A :=
  if (0 <=? y) && (0 <=? x) then pixel_at m (Z.to_nat y) (Z.to_nat x) else None.

Definition shape {A} (m : Mat A) : list nat := fmap (M := list) length m.

Definition map1 {A B} (f : A -> B) (a : Mat A) : Mat B :=
  fmap (M := list) (fmap (M := list) f) a.

Definition map2 {A B C} (f : A -> B -> C) (a : Mat A) (b : Mat B) : Mat C :=
  zip_with (zip_with f) a b.

(** Every sample of the array satisfies [P]. *)
Definition all_px {A} (P : A -> Prop) (m : Mat A) : Prop :=
  forall i j x, pixel_at m i j = Some x -> P x.

Abbreviation zero_px := (fun x : spec_float => F64.is_zero x = true).
Abbreviation finite_px := (fun x : spec_float => F64.is_finite x = true).

(** A mask sample: 0 or 255. *)
Definition binary (v : Z) : Prop := v = 0 \/ v = 255.

(** 8-bit three-channel samples in OpenCV's channel order, and the
    hue/saturation/value samples of [COLOR_BGR2HSV]. *)
Record BGR := mkBGR { blue : Z; green : Z; red : Z }.
Record HSV := mkHSV { hue : Z; sat : Z; val : Z }.
Record BGRA := mkBGRA { bgra_b : Z; bgra_g : Z; bgra_r : Z; bgra_a : Z }.

Definition uint8 (z : Z) : Prop := 0 <= z <= 255.
Definition wf_pixel (p : BGR) : Prop :=
  uint8 (blue p) /\ uint8 (green p) /\ uint8 (red p).

(** ** The OpenCV numerics the pipeline depends on

    [cv2.cvtColor] and [cv2.GaussianBlur] are library code.  The pipeline is
    written against this interface: the per-pixel BGR to HSV conversion, and
    the 1-D coefficients [GaussianBlur] uses for a kernel size when sigma
    is 0. *)
Class Imgproc := {
  BGR2HSV : BGR -> HSV;
  getGaussianKernel : Z -> list spec_float
}.

(** ** NumPy element-wise operations used by the source *)

Module np.

Definition wrap_uint8 (z : Z) : Z := z mod 256.
Definition wrap_int16 (z : Z) : Z := (z + 32768) mod 65536 - 32768.

(** [np.maximum(a, b)] on two arrays, and [np.maximum(a, c)] with a scalar. *)
Definition maximum (a b : Mat Z) : Mat Z := map2 Z.max a b.
Definition maximum_scalar (a : Mat Z) (c : Z) : Mat Z :=
  map1 (fun x => Z.max x c) a.

(** [np.subtract(a, b, dtype=np.int16)]: the operands are widened first. *)
Definition subtract_int16 (a b : Mat Z) : Mat Z :=
  map2 (fun x y => wrap_int16 (x - y)) a b.

(** [a - b] on two [uint8] arrays wraps modulo 256. *)
Definition subtract_uint8 (a b : Mat Z) : Mat Z :=
  map2 (fun x y => wrap_uint8 (x - y)) a b.

Definition greater (a b : Mat Z) : Mat bool := map2 Z.gtb a b.
Definition greater_scalar (a : Mat Z) (c : Z) : Mat bool :=
  map1 (fun x => x >? c) a.
Definition logical_and (a b : Mat bool) : Mat bool := map2 andb a b.

(** [np.where(c, x, y)]. *)
Definition where_ {A} (c : Mat bool) (x y : Mat A) : Mat A :=
  map2 (fun (cb : bool * A) yv => if cb.1 then cb.2 else yv)
       (map2 pair c x) y.

(** [a.astype(float)], and integer array times a Python float. *)
Definition astype_float (a : Mat Z) : Mat spec_float := map1 F64.of_Z a.
Definition multiply_float (a : Mat spec_float) (c : spec_float) : Mat spec_float :=
  map1 (fun x => F64.mul x c) a.
Definition divide_float (a : Mat spec_float) (c : spec_float) : Mat spec_float :=
  map1 (fun x => F64.div x c) a.

(** [a.astype(np.uint8)] on a float array: the C cast truncates toward
    zero; a value outside the 8-bit range keeps its low byte as long as its
    magnitude stays below 2^31, which is where this definition follows the
    source (the products of the pipeline stay below 256 for a strength in
    [0.0, 1.0]). *)
Definition float_to_uint8 (x : spec_float) : Z := wrap_uint8 (F64.trunc x).
Definition astype_uint8 (a : Mat spec_float) : Mat Z :=
  map1 float_to_uint8 a.

End np.

(** ** OpenCV operations used by the source *)

Module cv2.

Definition cvtColor_BGR2HSV `{Imgproc} (img : Mat BGR) : Mat HSV :=
  map1 BGR2HSV img.

(** [cv2.inRange]: 255 where every channel lies in its closed interval.
    The bounds reach OpenCV as C [int]s: the comparison below is the
    source's for bounds in that range (see [c_int_bounds]). *)
Definition inRange_px (lowerb upperb : Z * Z * Z) (p : HSV) : Z :=
  let '(lh, ls, lv) := lowerb in
  let '(uh, us, uv) := upperb in
  if (lh <=? hue p) && (hue p <=? uh) &&
     (ls <=? sat p) && (sat p <=? us) &&
     (lv <=? val p) && (val p <=? uv)
  then 255 else 0.

Definition inRange (src : Mat HSV) (lowerb upperb : Z * Z * Z) : Mat Z :=
  map1 (inRange_px lowerb upperb) src.

(** The structuring element [np.ones((3, 3), np.uint8)], anchored at its
    centre, as the list of its offsets. *)
Definition kernel3x3 : list (Z * Z) :=
  [(-1, -1); (-1, 0); (-1, 1); (0, -1); (0, 0); (0, 1); (1, -1); (1, 0); (1, 1)].

Definition neighbours (kernel : list (Z * Z)) (src : Mat Z) (i j : nat)
  : list Z :=
  omap (fun d : Z * Z => sample_at src (Z.of_nat i + d.1) (Z.of_nat j + d.2))
       kernel.

(** One erosion pass: the minimum over the neighbourhood.  With the default
    border, samples outside the image do not take part. *)
Definition erode1 (kernel : list (Z * Z)) (src : Mat Z) : Mat Z :=
  imap (fun i row =>
          imap (fun j _ => foldr Z.min 255 (neighbours kernel src i j)) row)
       src.

(** One dilation pass: the maximum over the neighbourhood. *)
Definition dilate1 (kernel : list (Z * Z)) (src : Mat Z) : Mat Z :=
  imap (fun i row =>
          imap (fun j _ => foldr Z.max 0 (neighbours kernel src i j)) row)
       src.

Definition erode (src : Mat Z) (kernel : list (Z * Z)) (iterations : Z)
  : Mat Z :=
  Nat.iter (Z.to_nat iterations) (erode1 kernel) src.
Definition dilate (src : Mat Z) (kernel : list (Z * Z)) (iterations : Z)
  : Mat Z :=
  Nat.iter (Z.to_nat iterations) (dilate1 kernel) src.

(** [cv2.bitwise_not] on 8-bit samples. *)
Definition bitwise_not (src : Mat Z) : Mat Z :=
  map1 (fun x => Z.land (Z.lnot x) 255) src.

(** Border extension [BORDER_REFLECT_101] (the default of [GaussianBlur]):
    [gfedcb|abcdefgh|gfedcba]. *)
Definition borderInterpolate (p len : Z) : Z :=
  if len <=? 1 then 0
  else let period := 2 * (len - 1) in
       let q := p mod period in
       if q <? len then q else period - q.

Definition border_sample (line : list spec_float) (p : Z) : spec_float :=
  default F64.zero
    (line !! Z.to_nat (borderInterpolate p (Z.of_nat (length line)))).

(** One output sample of a 1-D filter with the kernel anchored at its
    centre. *)
Definition tap1D (kernel line : list spec_float) (pos : nat) : spec_float :=
  let radius := Z.of_nat (length kernel) / 2 in
  foldl F64.add F64.zero
    (imap (fun t w =>
             F64.mul w (border_sample line (Z.of_nat pos + Z.of_nat t - radius)))
          kernel).

Definition column (m : Mat spec_float) (j : nat) : list spec_float :=
  fmap (M := list) (fun row => default F64.zero (row !! j)) m.

Definition filter_rows (kernel : list spec_float) (src : Mat spec_float)
  : Mat spec_float :=
  fmap (M := list) (fun row => imap (fun j _ => tap1D kernel row j) row) src.

Definition filter_columns (kernel : list spec_float) (src : Mat spec_float)
  : Mat spec_float :=
  imap (fun i row => imap (fun j _ => tap1D kernel (column src j) i) row) src.

(** [cv2.GaussianBlur(src, (ksize, ksize), 0)]: a separable filter, rows
    then columns, with the same coefficients in both directions. *)
Definition GaussianBlur `{Imgproc} (src : Mat spec_float) (ksize : Z)
  : Mat spec_float :=
  let kernel := getGaussianKernel ksize in
  filter_columns kernel (filter_rows kernel src).

Definition split (img : Mat BGR) : Mat Z * Mat Z * Mat Z :=
  (map1 blue img, map1 green img, map1 red img).

Definition merge (b g r : Mat Z) : Mat BGR :=
  map2 (fun (bg : Z * Z) rv => mkBGR bg.1 bg.2 rv) (map2 pair b g) r.

(** [COLOR_BGR2BGRA] adds an opaque alpha channel. *)
Definition cvtColor_BGR2BGRA (img : Mat BGR) : Mat BGRA :=
  map1 (fun p => mkBGRA (blue p) (green p) (red p) 255) img.

End cv2.

(** ** The pipeline: [remove_background_advanced] *)

(** The exception the source raises itself.  The errors OpenCV raises for
    arguments it does not accept (an integer that does not fit a C [int], an
    output path without a known image extension) are not part of the model:
    statements about the outcome of a call are about arguments OpenCV
    accepts (see [supported_arguments]). *)
Inductive exn := FileNotFoundError (image_path : string).

(** What a call does: it raises, or it writes [bgra] to [output_path]. *)
Inductive outcome :=
| Raised (e : exn)
| Saved (output_path : string) (bgra : Mat BGRA).

(** [bgra[:, :, 3] = alpha_uint8]. *)
Definition set_alpha (bgra : Mat BGRA) (alpha : Mat Z) : Mat BGRA :=
  map2 (fun p a => mkBGRA (bgra_b p) (bgra_g p) (bgra_r p) a) bgra alpha.

Section Pipeline.
Context `{Imgproc}.

(** Steps 2 and 3: HSV conversion and the initial green mask. *)
Definition green_mask (img : Mat BGR) (lower_green upper_green : Z * Z * Z)
  : Mat Z :=
  let hsv := cv2.cvtColor_BGR2HSV img in
  let lower_bound := lower_green in
  let upper_bound := upper_green in
  cv2.inRange hsv lower_bound upper_bound.

(** Step 4: morphological clean-up with the 3x3 kernel. *)
Definition refine_mask (mask : Mat Z) (kernel : list (Z * Z))
    (erode_iterations dilate_iterations : Z) : Mat Z :=
  let mask :=
    if erode_iterations >? 0 then cv2.erode mask kernel erode_iterations
    else mask in
  let mask :=
    if dilate_iterations >? 0 then cv2.dilate mask kernel dilate_iterations
    else mask in
  mask.

(** Step 5: the alpha channel is the inverted mask. *)
Definition raw_alpha (mask : Mat Z) : Mat Z := cv2.bitwise_not mask.

(** Step 6: feathering, through [float] and back to [uint8]. *)
Definition feather (alpha : Mat Z) (feather_amount : Z) : Mat Z :=
  let alpha_float := np.divide_float (np.astype_float alpha) (F64.of_Z 255) in
  let alpha_float :=
    if feather_amount >? 0 then
      let feather_amount :=
        if feather_amount mod 2 =? 0 then feather_amount + 1
        else feather_amount in
      cv2.GaussianBlur alpha_float feather_amount
    else alpha_float in
  np.astype_uint8 (np.multiply_float alpha_float (F64.of_Z 255)).

(** Step 7: despill on the channels of the input image. *)
Definition despill (img : Mat BGR) (despill_strength : spec_float) : Mat BGR :=
  let '(b, g, r) := cv2.split img in
  let max_rb := np.maximum r b in
  let green_excess := np.subtract_int16 g max_rb in
  let green_excess := np.maximum_scalar green_excess 0 in
  let despill_mask :=
    np.logical_and (np.greater g max_rb) (np.greater_scalar green_excess 20) in
  let g :=
    if F64.ltb F64.zero despill_strength then
      let amount :=
        np.astype_uint8
          (np.multiply_float (np.astype_float green_excess) despill_strength) in
      np.where_ despill_mask (np.subtract_uint8 g amount) g
    else g in
  cv2.merge b g r.

(** The whole function.  [imread] is the file system as [cv2.imread] sees it
    ([None] for a file that cannot be read); [cv2.imwrite] is the [Saved]
    outcome; the final [print] is left out. *)
Definition remove_background_advanced
    (imread : string -> option (Mat BGR))
    (image_path output_path : string)
    (despill_strength : spec_float)
    (feather_amount erode_iterations dilate_iterations : Z)
    (lower_green upper_green : Z * Z * Z) : outcome :=
  match imread image_path with
  | None => Raised (FileNotFoundError image_path)
  | Some img =>
      let mask := green_mask img lower_green upper_green in
      let kernel := cv2.kernel3x3 in
      let mask := refine_mask mask kernel erode_iterations dilate_iterations in
      let alpha := raw_alpha mask in
      let alpha_uint8 := feather alpha feather_amount in
      let dilated_green_mask := cv2.dilate mask kernel 3 in
      let img_despilled := despill img despill_strength in
      let bgra := cv2.cvtColor_BGR2BGRA img_despilled in
      let bgra := set_alpha bgra alpha_uint8 in
      Saved output_path bgra
  end.

End Pipeline.

(** Every coefficient list the blur may use holds finite numbers. *)
Definition kernel_finite `{Imgproc} : Prop :=
  forall ksize, Forall finite_px (getGaussianKernel ksize).

(** The alpha channel written by the pipeline (steps 2 to 6). *)
Definition final_alpha `{Imgproc} (img : Mat BGR)
    (feather_amount erode_iterations dilate_iterations : Z)
    (lower_green upper_green : Z * Z * Z) : Mat Z :=
  feather
    (raw_alpha
       (refine_mask (green_mask img lower_green upper_green) cv2.kernel3x3
          erode_iterations dilate_iterations))
    feather_amount.

(** Step 7 read at one pixel: [max_rb], [green_excess], [despill_mask] and
    the new green sample. *)
Definition max_rb (p : BGR) : Z := Z.max (red p) (blue p).

Definition green_excess (p : BGR) : Z :=
  Z.max (np.wrap_int16 (green p - max_rb p)) 0.

Definition despill_mask (p : BGR) : bool :=
  (green p >? max_rb p) && (green_excess p >? 20).

Definition despill_amount (despill_strength : spec_float) (p : BGR) : Z :=
  np.float_to_uint8 (F64.mul (F64.of_Z (green_excess p)) despill_strength).

Definition despill_px (despill_strength : spec_float) (p : BGR) : BGR :=
  mkBGR (blue p)
        (if F64.ltb F64.zero despill_strength then
           if despill_mask p
           then np.wrap_uint8 (green p - despill_amount despill_strength p)
           else green p
         else green p)
        (red p).

(** Steps 5 and 6 read at one sample when no blur is applied. *)
Definition alpha_round_trip (a : Z) : Z :=
  np.float_to_uint8
    (F64.mul (F64.div (F64.of_Z a) (F64.of_Z 255)) (F64.of_Z 255)).

(** Default arguments of the source. *)
Definition default_despill_strength : spec_float :=
  F64.of_dyadic 6305039478318694 (-53).
Definition default_feather_amount : Z := 5.
Definition default_erode_iterations : Z := 0.
Definition default_dilate_iterations : Z := 1.
Definition default_lower_green : Z * Z * Z := (35, 100, 100).
Definition default_upper_green : Z * Z * Z := (85, 255, 255).

(** ** OpenCV's numerics for 8-bit images

    The fixed-point BGR to HSV conversion of 8-bit images (hue in
    [0, 180)), and the fixed coefficient table [GaussianBlur] uses for kernel
    sizes up to 7 when sigma is 0.  Larger kernels are computed by OpenCV
    from [exp]; they are left as the parameter [large_kernel]. *)

Module OpenCV.

(** [cvRound (p / q)] for [q > 0]: nearest integer, ties to even. *)
Definition cvRound_div (p q : Z) : Z :=
  let fl := p / q in
  let r2 := 2 * (p mod q) in
  if r2 <? q then fl
  else if q <? r2 then fl + 1
  else if Z.even fl then fl else fl + 1.

Definition hsv_shift : Z := 12.

Definition sdiv_table (i : Z) : Z :=
  if i =? 0 then 0 else cvRound_div (Z.shiftl 255 hsv_shift) i.

Definition hdiv_table180 (i : Z) : Z :=
  if i =? 0 then 0 else cvRound_div (Z.shiftl 180 hsv_shift) (6 * i).

Definition saturate_uint8 (z : Z) : Z := Z.max 0 (Z.min 255 z).

Definition RGB2HSV_b (p : BGR) : HSV :=
  let b := blue p in
  let g := green p in
  let r := red p in
  let v := Z.max (Z.max b g) r in
  let vmin := Z.min (Z.min b g) r in
  let diff := v - vmin in
  let s := Z.shiftr (diff * sdiv_table v + Z.shiftl 1 (hsv_shift - 1)) hsv_shift in
  let h :=
    if v =? r then g - b
    else if v =? g then b - r + 2 * diff
    else r - g + 4 * diff in
  let h := Z.shiftr (h * hdiv_table180 diff + Z.shiftl 1 (hsv_shift - 1)) hsv_shift in
  let h := if h <? 0 then h + 180 else h in
  mkHSV (saturate_uint8 h) s v.

Definition small_gaussian_tab (ksize : Z) : option (list spec_float) :=
  let c := F64.of_dyadic in
  if ksize =? 1 then Some [c 1 0]
  else if ksize =? 3 then Some [c 1 (-2); c 1 (-1); c 1 (-2)]
  else if ksize =? 5 then
    Some [c 1 (-4); c 1 (-2); c 3 (-3); c 1 (-2); c 1 (-4)]
  else if ksize =? 7 then
    Some [c 1 (-5); c 7 (-6); c 7 (-5); c 9 (-5); c 7 (-5); c 7 (-6); c 1 (-5)]
  else None.

Definition gaussian_kernel (large_kernel : Z -> list spec_float) (ksize : Z)
  : list spec_float :=
  match small_gaussian_tab ksize with
  | Some k => k
  | None => large_kernel ksize
  end.

Definition imgproc (large_kernel : Z -> list spec_float) : Imgproc :=
  {| BGR2HSV := RGB2HSV_b; getGaussianKernel := gaussian_kernel large_kernel |}.

End OpenCV.

(** ** The spill corrector as the specification words it

    [spec_excess] and [spec_eligible] follow the specification's text; the
    source's own [green_excess] and [despill_mask] are above. *)

Definition spec_excess (p : BGR) : Z :=
  Z.max 0 (green p - Z.max (red p) (blue p)).

Definition spec_eligible (p : BGR) : bool :=
  (green p >? Z.max (red p) (blue p)) && (spec_excess p >? 20).

(** A despill strength in the documented range [0.0, 1.0]. *)
Definition valid_strength (s : spec_float) : Prop :=
  F64.valid s /\ F64.leb F64.zero s = true /\ F64.leb s F64.one = true.

(** Every pixel of the image is classified as background. *)
Definition within_bounds `{Imgproc} (lower_green upper_green : Z * Z * Z)
    (img : Mat BGR) : Prop :=
  all_px (fun p => cv2.inRange_px lower_green upper_green (BGR2HSV p) = 255) img.

(** ** The arguments OpenCV accepts

    OpenCV's Python binding converts integer arguments to C [int]s and
    raises for a value that does not fit; the work and memory of a blur or
    of a morphological operation grow with its size or count;
    [cv2.imwrite] chooses the encoder by the extension of the path and
    raises when it knows none. *)

Definition c_int (z : Z) : Prop := -2147483648 <= z <= 2147483647.

Definition c_int_bounds (bound : Z * Z * Z) : Prop :=
  c_int bound.1.1 /\ c_int bound.1.2 /\ c_int bound.2.

(** The path ends in [.png], the format the front end writes. *)
Definition png_path (path : string) : Prop :=
  String.eqb
    (String.substring (String.length path - 4) 4 path) ".png" = true.

(** The largest values the sliders of the front end supply ([web.py]). *)
Definition feather_maximum : Z := 20.
Definition iterations_maximum : Z := 5.

(** Arguments with which the calls to OpenCV succeed: a [.png] output
    path, amounts not above the sliders' maxima (an amount below 1 never
    reaches OpenCV: its step is skipped) and bounds that fit a C [int]. *)
Definition supported_arguments (output_path : string)
    (feather_amount erode_iterations dilate_iterations : Z)
    (lower_green upper_green : Z * Z * Z) : Prop :=
  png_path output_path /\
  feather_amount <= feather_maximum /\
  erode_iterations <= iterations_maximum /\
  dilate_iterations <= iterations_maximum /\
  c_int_bounds lower_green /\ c_int_bounds upper_green.

(** ** Sample inputs *)

Definition pure_green : BGR := mkBGR 0 255 0.
Definition pure_white : BGR := mkBGR 255 255 255.

(** A pixel with green spill: green exceeds red and blue by 170. *)
Definition spill_px : BGR := mkBGR 10 200 30.

(** The 2x2 image with one green pixel at row [gi], column [gj]. *)
Definition one_green (gi gj : bool) : Mat BGR :=
  let px (i j : bool) :=
    if Bool.eqb i gi && Bool.eqb j gj then pure_green else pure_white in
  [[px false false; px false true]; [px true false; px true true]].

Definition all_green (h w : nat) : Mat BGR := replicate h (replicate w pure_green).

(** The expected output for [one_green gi gj] without feathering: the green
    pixel is transparent with green sample [g'], the others are opaque
    white. *)
Definition one_green_output (gi gj : bool) (g' : Z) : Mat BGRA :=
  let px (i j : bool) :=
    if Bool.eqb i gi && Bool.eqb j gj then mkBGRA 0 g' 0 0
    else mkBGRA 255 255 255 255 in
  [[px false false; px false true]; [px true false; px true true]].

(** The Python literal [-0.5]. *)
Definition minus_half : spec_float := F64.of_dyadic (-1) (-1).

(** A file system holding one image, at ["in.png"]. *)
Definition one_file (img : Mat BGR) : string -> option (Mat BGR) :=
  fun path => if String.eqb path "in.png" then Some img else None.

(** OpenCV's numerics with its fixed coefficient table (kernel sizes 1, 3,
    5 and 7).  Larger kernels have no coefficients here; this instance is
    used on concrete inputs with feather amounts up to 7 only. *)
Definition opencv : Imgproc := OpenCV.imgproc (fun _ => []).

(** ** Notions used to state further properties of the pipeline *)

(** The colour of a written pixel. *)
Definition colour_of (q : BGRA) : BGR := mkBGR (bgra_b q) (bgra_g q) (bgra_r q).

(** The pixel is classified as background by steps 2 and 3. *)
Definition in_bounds `{Imgproc} (lower_green upper_green : Z * Z * Z) (p : BGR)
  : Prop :=
  cv2.inRange_px lower_green upper_green (BGR2HSV p) = 255.

(** The 3x3 neighbourhood of position [(i, j)], clipped to the image, holds
    a pixel that is not classified as background. *)
(** The pixel is classified as foreground by steps 2 and 3. *)
Definition out_of_bounds `{Imgproc} (lower_green upper_green : Z * Z * Z)
    (p : BGR) : Prop :=
  cv2.inRange_px lower_green upper_green (BGR2HSV p) = 0.

(** The 3x3 neighbourhood of position [(i, j)], clipped to the image, holds
    a pixel that is classified as foreground. *)
Definition has_foreground_neighbour `{Imgproc}
    (lower_green upper_green : Z * Z * Z) (img : Mat BGR) (i j : nat) : Prop :=
  exists d q,
    d ∈ cv2.kernel3x3 /\
    sample_at img (Z.of_nat i + d.1) (Z.of_nat j + d.2) = Some q /\
    out_of_bounds lower_green upper_green q.

(** A sample that the one-tap kernel [[1.0]] reproduces exactly. *)
Definition stable (x : spec_float) : Prop :=
  F64.add F64.zero (F64.mul F64.one x) = x.

(** [m1] and [m2] have the same shape and [m1] is nowhere above [m2]. *)
Definition mask_le (m1 m2 : Mat Z) : Prop :=
  shape m1 = shape m2 /\
  forall i j a b,
    pixel_at m1 i j = Some a -> pixel_at m2 i j = Some b -> a <= b.

(** All rows have the same length, as in a NumPy array. *)
Definition rectangular {A} (m : Mat A) : Prop :=
  forallb (fun n => (n =? default 0%nat (head (shape m)))%nat) (shape m) = true.

(** The coefficients add up to exactly 1.0 in [float64], taken in order. *)
Definition unit_gain (kernel : list spec_float) : Prop :=
  foldl F64.add F64.zero (imap (fun _ w => F64.mul w F64.one) kernel) = F64.one.

(** A NumPy image with positive height and width. *)
Definition nonempty {A} (m : Mat A) : Prop :=
  (0 <? length m)%nat && forallb (fun row => (0 <? length row)%nat) m = true.

(** ** The footprint of the blur

    The kernel size [GaussianBlur] is called with for a positive feather
    amount (step 6 makes an even amount odd). *)
Definition blur_size (feather_amount : Z) : Z :=
  if feather_amount mod 2 =? 0 then feather_amount + 1 else feather_amount.

Definition width {A} (m : Mat A) : nat := length (default [] (head m)).

(** The samples the separable filter of size [ksize] reads for position
    [(i, j)], positions beyond the border reflected as [GaussianBlur] does,
    all hold [c]. *)
Definition footprint_uniform (alpha : Mat Z) (ksize : Z) (i j : nat) (c : Z)
  : Prop :=
  forall t u,
    0 <= t < ksize -> 0 <= u < ksize ->
    sample_at alpha
      (cv2.borderInterpolate (Z.of_nat i + t - ksize / 2)
         (Z.of_nat (length alpha)))
      (cv2.borderInterpolate (Z.of_nat j + u - ksize / 2)
         (Z.of_nat (width alpha))) = Some c.

(** [kernel] holds [ksize] finite coefficients that add up to exactly 1.0. *)
Definition exact_kernel (kernel : list spec_float) (ksize : Z) : Prop :=
  Z.of_nat (length kernel) = ksize /\
  unit_gain kernel /\
  forallb F64.is_finite kernel = true.

(** ** The web front end's wrapper: [process_image] of [web.py] *)

(** Gradio hands images over, and takes them back, in RGB order. *)
Record RGB := mkRGB { rgb_r : Z; rgb_g : Z; rgb_b : Z }.
Record RGBA := mkRGBA { rgba_r : Z; rgba_g : Z; rgba_b : Z; rgba_a : Z }.

(** A slider value: a Python [int] or [float]. *)
Inductive number := PyInt (z : Z) | PyFloat (x : spec_float).

(** [int(n)] truncates toward zero; it raises ([None] here) on a NaN
    ([ValueError]) and on an infinity ([OverflowError]). *)
Definition py_int (n : number) : option Z :=
  match n with
  | PyInt z => Some z
  | PyFloat x => if F64.is_finite x then Some (F64.trunc x) else None
  end.

(** A PNG file: three or four 8-bit channels, stored without loss. *)
Inductive image_file := File3 (img : Mat BGR) | File4 (img : Mat BGRA).

Module web.

Definition temp_input : string := "temp_input.png".
Definition temp_output : string := "temp_output.png".

Definition cvtColor_RGB2BGR (image : Mat RGB) : Mat BGR :=
  map1 (fun p => mkBGR (rgb_b p) (rgb_g p) (rgb_r p)) image.

Definition cvtColor_BGRA2RGBA (img : Mat BGRA) : Mat RGBA :=
  map1 (fun q => mkRGBA (bgra_r q) (bgra_g q) (bgra_b q) (bgra_a q)) img.

Definition imwrite (fs : gmap string image_file) (path : string)
    (file : image_file) : gmap string image_file :=
  <[path := file]> fs.

(** [cv2.imread(path)]: the default flag gives three channels, an alpha
    channel in the file is dropped; [None] when there is no such file. *)
Definition imread (fs : gmap string image_file) (path : string)
  : option (Mat BGR) :=
  match fs !! path with
  | Some (File3 img) => Some img
  | Some (File4 img) => Some (map1 colour_of img)
  | None => None
  end.

(** [cv2.imread(path, cv2.IMREAD_UNCHANGED)]. *)
Definition imread_unchanged (fs : gmap string image_file) (path : string)
  : option image_file :=
  fs !! path.

(** [if os.path.exists(path): os.remove(path)]. *)
Definition remove_if_exists (fs : gmap string image_file) (path : string)
  : gmap string image_file :=
  if bool_decide (is_Some (fs !! path)) then delete path fs else fs.

(** [process_image]: the file system before the call goes in, the file
    system after it and the returned value come out.  [None] as the image or
    as the result is Python's [None]; the [except Exception] branch returns
    [None] for whatever was raised inside [try].  The result follows the
    source for an image of positive height and width and slider values
    OpenCV accepts (see [supported_arguments]); for others OpenCV raises
    inside [try] and the source returns [None]. *)
Definition process_image `{Imgproc} (fs : gmap string image_file)
    (image : option (Mat RGB)) (despill : spec_float)
    (feather erode dilate : number)
  : gmap string image_file * option (Mat RGBA) :=
  match image with
  | None => (fs, None)
  | Some image =>
      let image_bgr := cvtColor_RGB2BGR image in
      let fs := imwrite fs temp_input (File3 image_bgr) in
      let '(fs, result) :=
        match py_int feather, py_int erode, py_int dilate with
        | Some feather_amount, Some erode_iterations, Some dilate_iterations =>
            match
              remove_background_advanced (imread fs) temp_input temp_output
                despill feather_amount erode_iterations dilate_iterations
                default_lower_green default_upper_green
            with
            | Raised _ => (fs, None)
            | Saved output_path bgra =>
                let fs := imwrite fs output_path (File4 bgra) in
                match imread_unchanged fs temp_output with
                | Some (File4 result_bgra) =>
                    (fs, Some (cvtColor_BGRA2RGBA result_bgra))
                | _ => (fs, None)
                end
            end
        | _, _, _ => (fs, None)
        end in
      let fs := remove_if_exists fs temp_input in
      let fs := remove_if_exists fs temp_output in
      (fs, result)
  end.

End web.

(** ** Facts about binary64 rounding *)

Module F64Facts.
Import F64.

Definition sticky (x : shr_record) : bool := shr_r x || shr_s x.

(** [shifted n x y]: [y] is [x] shifted right by [n] bits, and [y] records
    a lost bit only if [x] did or a nonzero bit was shifted out. *)
Definition shifted (n : Z) (x y : shr_record) : Prop :=
  0 <= shr_m y /\ shr_m y = shr_m x / 2 ^ n /\
  (sticky y = true -> sticky x = true \/ shr_m x mod 2 ^ n <> 0).

Ltac div_lia := Z.to_euclidean_division_equations; lia.

Lemma shr_1_shifted x : 0 <= shr_m x -> shifted 1 x (shr_1 x).
Proof.
  destruct x as [m r s]; cbn [shr_m]; intros Hm.
  unfold shifted, sticky.
  destruct m as [|[p|p|]|p]; try lia;
    cbn [shr_1 shr_m shr_r shr_s orb]; change (2 ^ 1) with 2;
    (split; [lia|]); (split; [div_lia|]);
    try (intros _; right; div_lia); intros ->; auto.
Qed.

Lemma shifted_trans a b x y z :
  0 <= a -> 0 <= b -> 0 <= shr_m x ->
  shifted a x y -> shifted b y z -> shifted (a + b) x z.
Proof.
  intros Ha Hb Hx (Hy0 & Hy & Hys) (Hz0 & Hz & Hzs).
  assert (Hpa : 0 < 2 ^ a) by (apply Z.pow_pos_nonneg; lia).
  assert (Hpb : 0 < 2 ^ b) by (apply Z.pow_pos_nonneg; lia).
  split; [assumption|]. split.
  - rewrite Hz, Hy, Z.pow_add_r, Z.div_div by lia. reflexivity.
  - intros Hs. rewrite Z.pow_add_r, Z.rem_mul_r by lia.
    pose proof (Z.mod_pos_bound (shr_m x) (2 ^ a) Hpa).
    pose proof (Z.mod_pos_bound (shr_m x / 2 ^ a) (2 ^ b) Hpb).
    destruct (Hzs Hs) as [Hy'|Hne].
    + destruct (Hys Hy') as [Hx'|Hne]; [auto|right; nia].
    + right. rewrite Hy in Hne. nia.
Qed.

Lemma iter_pos_shifted p : forall x,
  0 <= shr_m x -> shifted (Zpos p) x (SpecFloat.iter_pos shr_1 p x).
Proof.
  induction p as [p IH|p IH|]; intros x Hx; simpl.
  - pose proof (shr_1_shifted x Hx) as H1.
    pose proof (IH _ (proj1 H1)) as H2.
    pose proof (IH _ (proj1 H2)) as H3.
    replace (Z.pos p~1) with (1 + Z.pos p + Z.pos p) by lia.
    eapply shifted_trans; [lia|lia|assumption| |exact H3].
    eapply shifted_trans; [lia|lia|assumption|exact H1|exact H2].
  - pose proof (IH _ Hx) as H1.
    pose proof (IH _ (proj1 H1)) as H2.
    replace (Z.pos p~0) with (Z.pos p + Z.pos p) by lia.
    eapply shifted_trans; [lia|lia|assumption|exact H1|exact H2].
  - apply shr_1_shifted; assumption.
Qed.

Lemma shr_exact m e n mrs e' :
  0 <= m -> shr (Build_shr_record m false false) e n = (mrs, e') ->
  e' = e + Z.max 0 n /\ shr_m mrs = m / 2 ^ Z.max 0 n /\
  0 <= shr_m mrs <= round_nearest_even (shr_m mrs) (loc_of_shr_record mrs) /\
  forall B, m <= B * 2 ^ Z.max 0 n ->
            round_nearest_even (shr_m mrs) (loc_of_shr_record mrs) <= B.
Proof.
  intros Hm Hshr. destruct n as [|p|p]; cbn [shr] in Hshr.
  - injection Hshr as <- <-. replace (Z.max 0 0) with 0 by lia.
    cbn. rewrite Z.div_1_r. repeat split; intros; lia.
  - injection Hshr as <- <-.
    destruct (iter_pos_shifted p (Build_shr_record m false false) Hm)
      as (H0 & Hq & Hs).
    cbn [shr_m] in *. replace (Z.max 0 (Z.pos p)) with (Z.pos p) by lia.
    assert (Hp : 0 < 2 ^ Z.pos p) by (apply Z.pow_pos_nonneg; lia).
    set (y := SpecFloat.iter_pos shr_1 p _) in *.
    assert (Hrne : shr_m y <= round_nearest_even (shr_m y) (loc_of_shr_record y)
                   /\ (round_nearest_even (shr_m y) (loc_of_shr_record y) = shr_m y
                       \/ round_nearest_even (shr_m y) (loc_of_shr_record y) = shr_m y + 1
                          /\ sticky y = true)).
    { unfold sticky. destruct y as [q [|] [|]]; cbn; try destruct (Z.even q); lia. }
    destruct Hrne as [Hlo Hhi].
    split; [lia|]. split; [assumption|]. split; [lia|].
    intros B HB. destruct Hhi as [->|[-> Hst]].
    + rewrite Hq. apply Z.div_le_upper_bound; lia.
    + destruct (Hs Hst) as [Hx|Hne]; [discriminate Hx|].
      rewrite Hq. clear - Hp HB Hne Hm.
      pose proof (Z.div_mod m (2 ^ Z.pos p) ltac:(lia)) as Hdm.
      pose proof (Z.mod_pos_bound m (2 ^ Z.pos p) Hp) as Hr.
      generalize dependent (2 ^ Z.pos p). intros P HP HB Hne Hdm Hr.
      generalize dependent (m mod P). generalize dependent (m / P).
      intros q r Hr0 Hdm Hr. nia.
  - injection Hshr as <- <-. replace (Z.max 0 (Z.neg p)) with 0 by lia.
    cbn. rewrite Z.div_1_r. repeat split; intros; lia.
Qed.

Lemma digits2_pos_lower m : 2 ^ (Z.pos (digits2_pos m) - 1) <= Z.pos m.
Proof.
  induction m as [m IH|m IH|]; cbn [digits2_pos]; [| |cbn; lia];
    rewrite Pos2Z.inj_succ;
    replace (Z.succ (Z.pos (digits2_pos m)) - 1)
      with (Z.succ (Z.pos (digits2_pos m) - 1)) by lia;
    rewrite Z.pow_succ_r by lia; lia.
Qed.

Lemma digits2_pos_upper m : Z.pos m < 2 ^ Z.pos (digits2_pos m).
Proof.
  induction m as [m IH|m IH|]; cbn [digits2_pos]; [| |cbn; lia];
    rewrite Pos2Z.inj_succ, Z.pow_succ_r by lia; lia.
Qed.

Lemma Zdigits2_le z k : 0 <= k -> 0 <= z < 2 ^ k -> Zdigits2 z <= k.
Proof.
  intros Hk [Hz Hlt]. destruct z as [|m|m]; cbn [Zdigits2]; [lia| |lia].
  pose proof (digits2_pos_lower m) as Hlo.
  destruct (Z.le_gt_cases (Z.pos (digits2_pos m)) k) as [|Hgt]; [assumption|].
  exfalso. assert (2 ^ k <= 2 ^ (Z.pos (digits2_pos m) - 1))
    by (apply Z.pow_le_mono_r; lia). lia.
Qed.

Lemma pow2_split a b : 0 <= a -> 0 <= b -> 2 ^ (a + b) = 2 ^ a * 2 ^ b.
Proof. intros. apply Z.pow_add_r; assumption. Qed.

Lemma pow2_prec_sub e : e <= 0 -> 2 ^ (prec - e) = 2 ^ prec * 2 ^ (- e).
Proof.
  intros. replace (prec - e) with (prec + - e) by lia.
  apply pow2_split; unfold prec; lia.
Qed.

(** Rounding a positive product that does not exceed the integer [B] gives
    a value whose integer part does not exceed [B] either. *)
Lemma round_aux_trunc_le m ex B :
  ex <= 0 -> 0 <= B < 2 ^ prec -> Z.pos m <= B * 2 ^ (- ex) ->
  0 <= trunc (binary_round_aux prec emax false (Z.pos m) ex loc_Exact) <= B.
Proof.
  intros Hex HB Hm. unfold binary_round_aux, shr_fexp.
  cbn [shr_record_of_loc].
  set (n1 := fexp prec emax (Zdigits2 (Z.pos m) + ex) - ex).
  destruct (shr _ ex n1) as [mrs1 e1] eqn:E1.
  destruct (shr_exact _ _ _ _ _ (Pos2Z.is_nonneg m) E1) as (He1 & _ & Hr1 & Hup1).
  set (m1 := round_nearest_even (shr_m mrs1) (loc_of_shr_record mrs1)) in *.
  assert (Hpex : 0 < 2 ^ (- ex)) by (apply Z.pow_pos_nonneg; lia).
  assert (Hd : Zdigits2 (Z.pos m) <= prec - ex).
  { apply Zdigits2_le; [unfold prec; lia|]. split; [lia|].
    rewrite pow2_prec_sub by lia. nia. }
  assert (He1' : e1 <= 0).
  { subst e1 n1. unfold fexp, SpecFloat.emin, prec, emax in *. lia. }
  assert (Hm1 : m1 <= B * 2 ^ (- e1)).
  { apply Hup1. rewrite <- Z.mul_assoc, <- pow2_split by lia.
    replace (- e1 + Z.max 0 n1) with (- ex) by lia. assumption. }
  assert (Hpe1 : 0 < 2 ^ (- e1)) by (apply Z.pow_pos_nonneg; lia).
  set (n2 := fexp prec emax (Zdigits2 m1 + e1) - e1).
  destruct (shr _ e1 n2) as [mrs2 e2] eqn:E2.
  assert (Hm1' : 0 <= m1) by lia.
  destruct (shr_exact _ _ _ _ _ Hm1' E2) as (He2 & Hq2 & _ & _).
  assert (Hd1 : Zdigits2 m1 <= prec - e1).
  { apply Zdigits2_le; [unfold prec; lia|]. split; [lia|].
    rewrite pow2_prec_sub by lia. nia. }
  assert (He2' : e2 <= 0).
  { subst e2 n2. unfold fexp, SpecFloat.emin, prec, emax in *. lia. }
  assert (Hpn2 : 0 < 2 ^ Z.max 0 n2) by (apply Z.pow_pos_nonneg; lia).
  assert (Hpe2 : 0 < 2 ^ (- e2)) by (apply Z.pow_pos_nonneg; lia).
  assert (Hm2 : 0 <= shr_m mrs2 <= B * 2 ^ (- e2)).
  { rewrite Hq2. split; [apply Z.div_pos; lia|].
    apply Z.div_le_upper_bound; [lia|].
    rewrite (Z.mul_comm (2 ^ _)), <- Z.mul_assoc, <- pow2_split by lia.
    replace (- e2 + Z.max 0 n2) with (- e1) by lia. assumption. }
  destruct (shr_m mrs2) as [|q|q] eqn:Eq; cbn [trunc]; [lia| |lia].
  destruct (e2 <=? emax - prec); cbn [trunc cond_Zopp]; [|lia].
  replace (Z.shiftl (Z.pos q) e2) with (Z.pos q / 2 ^ (- e2))
    by (rewrite <- Z.shiftr_div_pow2, <- Z.shiftl_opp_r by lia;
        f_equal; lia).
  split; [apply Z.div_pos; lia|].
  apply Z.div_le_upper_bound; [lia|]. lia.
Qed.

(** *** Exhaustive checks over the 8-bit range *)

Lemma uint8_all_spec (P : Z -> bool) :
  uint8_all P = true -> forall z, uint8 z -> P z = true.
Proof.
  unfold uint8_all, uint8. intros Hall z Hz.
  rewrite forallb_forall in Hall. apply Hall.
  apply in_map_iff. exists (Z.to_nat z). split; [lia|].
  apply in_seq. lia.
Qed.

Lemma of_Z_uint8 e :
  uint8 e ->
  (e = 0 /\ of_Z e = S754_zero false) \/
  (exists m x, of_Z e = S754_finite false m x /\ x <= 0 /\
               Z.pos m = e * 2 ^ (- x)).
Proof.
  intros He.
  assert (Hc : uint8_all of_Z_exact = true) by (vm_compute; reflexivity).
  pose proof (uint8_all_spec _ Hc e He) as Hok. clear Hc.
  unfold of_Z_exact in Hok.
  destruct (of_Z e) as [[|]| | |[|] m x]; try discriminate Hok.
  - left. split; [lia|reflexivity].
  - right. exists m, x. split; [reflexivity|]. lia.
Qed.

Lemma trunc_mul_one e : uint8 e -> trunc (mul (of_Z e) one) = e.
Proof.
  intros He.
  assert (Hc : uint8_all (fun z => trunc (mul (of_Z z) one) =? z) = true)
    by (vm_compute; reflexivity).
  apply Z.eqb_eq. exact (uint8_all_spec _ Hc e He).
Qed.

(** *** Values in the unit interval *)

Lemma unit_interval_cases s :
  valid s -> leb zero s = true -> leb s one = true ->
  is_zero s = true \/
  exists m x, s = S754_finite false m x /\ x <= 0 /\ Z.pos m <= 2 ^ (- x).
Proof.
  intros Hv H0 H1. destruct s as [sg|sg| |sg m x].
  - left; reflexivity.
  - exfalso. destruct sg; [vm_compute in H0|vm_compute in H1]; discriminate.
  - exfalso. vm_compute in H0. discriminate.
  - destruct sg.
    { exfalso. cbv [leb SFleb SFcompare zero] in H0. discriminate. }
    right. exists m, x. split; [reflexivity|].
    unfold valid, valid_binary, bounded, canonical_mantissa in Hv.
    apply andb_true_iff in Hv as [Hc _]. apply Z.eqb_eq in Hc.
    pose proof (digits2_pos_upper m) as Hup.
    assert (Hd : Z.pos (digits2_pos m) <= 53)
      by (unfold fexp, SpecFloat.emin, prec, emax in Hc; lia).
    assert (Hm : Z.pos m < 2 ^ 53).
    { eapply Z.lt_le_trans; [exact Hup|]. apply Z.pow_le_mono_r; lia. }
    unfold leb, SFleb, one in H1. cbn [SFcompare] in H1.
    destruct (Z.compare_spec x (-52)) as [->|Hlt|Hgt]; [| |discriminate].
    + split; [lia|]. change (- -52) with 52.
      rewrite Pos.compare_cont_spec in H1. cbn [Pos.switch_Eq] in H1.
      destruct (Pos.compare_spec m 4503599627370496) as [Heq|Hl|Hg];
        [| |discriminate].
      * subst m. vm_compute. discriminate.
      * apply Pos2Z.pos_lt_pos in Hl.
        change (Z.pos 4503599627370496) with (2 ^ 52) in Hl. lia.
    + split; [lia|].
      assert (2 ^ 53 <= 2 ^ (- x)) by (apply Z.pow_le_mono_r; lia). lia.
Qed.

(** The integer part of [e * s], computed in binary64, lies between 0 and
    [e] whenever [s] is a float in the unit interval. *)
Lemma trunc_mul_bound e s :
  uint8 e -> valid s -> leb zero s = true -> leb s one = true ->
  0 <= trunc (mul (of_Z e) s) <= e.
Proof.
  intros He Hv H0 H1.
  destruct (unit_interval_cases s Hv H0 H1) as [Hz|(ms & xs & -> & Hxs & Hms)].
  - destruct s; try discriminate. unfold uint8 in He.
    destruct (of_Z e) as [?|?| |? ? ?]; cbn; lia.
  - destruct (of_Z_uint8 e He) as [[-> ->]|(me & xe & -> & Hxe & Hme)].
    + cbn. lia.
    + unfold mul. cbn [SFmul xorb].
      apply round_aux_trunc_le.
      * lia.
      * unfold uint8, prec in *. lia.
      * rewrite Pos2Z.inj_mul.
        replace (- (xe + xs)) with (- xe + - xs) by lia.
        rewrite pow2_split by lia. rewrite Hme.
        assert (0 < 2 ^ (- xe)) by (apply Z.pow_pos_nonneg; lia).
        unfold uint8 in He. nia.
Qed.

Lemma mul_zero_l w x :
  is_finite w = true -> is_zero x = true -> is_zero (mul w x) = true.
Proof. destruct w, x; cbn; intros; try discriminate; reflexivity. Qed.

Lemma mul_zero_r x w :
  is_zero x = true -> is_finite w = true -> is_zero (mul x w) = true.
Proof. destruct w, x; cbn; intros; try discriminate; reflexivity. Qed.

Lemma add_zero x y :
  is_zero x = true -> is_zero y = true -> is_zero (add x y) = true.
Proof.
  destruct x as [[|]| | |], y as [[|]| | |]; cbn; intros;
    try discriminate; reflexivity.
Qed.

Lemma trunc_zero x : is_zero x = true -> trunc x = 0.
Proof. destruct x; cbn; intros; try discriminate; reflexivity. Qed.

End F64Facts.

(** ** Facts about arrays *)

Lemma shape_lookup {A} (m : Mat A) i : shape m !! i = length <$> m !! i.
Proof. unfold shape. apply list_lookup_fmap. Qed.

Section ArrayFacts.
Context {A B C : Type}.

Lemma pixel_at_map1 (f : A -> B) (m : Mat A) i j :
  pixel_at (map1 f m) i j = f <$> pixel_at m i j.
Proof.
  unfold pixel_at, map1. rewrite list_lookup_fmap.
  destruct (m !! i) as [row|]; simpl; [apply list_lookup_fmap|reflexivity].
Qed.

Lemma pixel_at_map2 (f : A -> B -> C) (a : Mat A) (b : Mat B) i j :
  pixel_at (map2 f a b) i j =
  pixel_at a i j ≫= λ x, pixel_at b i j ≫= λ y, Some (f x y).
Proof.
  unfold pixel_at, map2. rewrite lookup_zip_with.
  destruct (a !! i) as [ra|]; simpl; [|reflexivity].
  destruct (b !! i) as [rb|]; simpl.
  - apply lookup_zip_with.
  - destruct (ra !! j); reflexivity.
Qed.

Lemma pixel_at_imap2 (f : nat -> nat -> A -> B) (m : Mat A) i j :
  pixel_at (imap (fun i row => imap (fun j x => f i j x) row) m) i j =
  f i j <$> pixel_at m i j.
Proof.
  unfold pixel_at. rewrite list_lookup_imap.
  destruct (m !! i) as [row|]; simpl; [apply list_lookup_imap|reflexivity].
Qed.

Lemma shape_map1 (f : A -> B) (m : Mat A) : shape (map1 f m) = shape m.
Proof.
  apply list_eq; intros i. rewrite !shape_lookup. unfold map1.
  rewrite list_lookup_fmap. destruct (m !! i); simpl; [|reflexivity].
  f_equal. apply length_fmap.
Qed.

Lemma shape_imap2 (f : nat -> nat -> A -> B) (m : Mat A) :
  shape (imap (fun i row => imap (fun j x => f i j x) row) m) = shape m.
Proof.
  apply list_eq; intros i. rewrite !shape_lookup, list_lookup_imap.
  destruct (m !! i); simpl; [|reflexivity]. f_equal. apply length_imap.
Qed.

Lemma shape_map2 (f : A -> B -> C) (a : Mat A) (b : Mat B) :
  shape a = shape b -> shape (map2 f a b) = shape a.
Proof.
  intros Hs. apply list_eq; intros i.
  assert (Hi : shape a !! i = shape b !! i) by (rewrite Hs; reflexivity).
  rewrite !shape_lookup in *. unfold map2. rewrite lookup_zip_with.
  destruct (a !! i) as [ra|], (b !! i) as [rb|]; simpl in *;
    try discriminate; [|reflexivity].
  f_equal. injection Hi as Hi. rewrite length_zip_with. lia.
Qed.

Lemma shape_pixel_at (a : Mat A) (b : Mat B) i j :
  shape a = shape b -> is_Some (pixel_at a i j) -> is_Some (pixel_at b i j).
Proof.
  intros Hs. assert (Hi : shape a !! i = shape b !! i) by (rewrite Hs; reflexivity).
  rewrite !shape_lookup in Hi. unfold pixel_at.
  destruct (a !! i) as [ra|], (b !! i) as [rb|]; simpl in *;
    try discriminate; intros Hj; [|destruct Hj; discriminate].
  injection Hi as Hi. apply lookup_lt_is_Some. rewrite <- Hi.
  apply lookup_lt_is_Some. exact Hj.
Qed.

Lemma map1_map1 (f : A -> B) (g : B -> C) (m : Mat A) :
  map1 g (map1 f m) = map1 (g ∘ f) m.
Proof.
  unfold map1. rewrite <- list_fmap_compose. apply list_fmap_ext.
  intros i row _. simpl. symmetry. apply list_fmap_compose.
Qed.

End ArrayFacts.

Section ArrayFacts1.
Context {A B : Type}.

Lemma map1_ext (f g : A -> B) (m : Mat A) :
  (forall i j x, pixel_at m i j = Some x -> f x = g x) -> map1 f m = map1 g m.
Proof.
  intros Hfg. unfold map1. apply list_fmap_ext. intros i row Hi.
  apply list_fmap_ext. intros j x Hj. apply (Hfg i j).
  unfold pixel_at. rewrite Hi. exact Hj.
Qed.

Lemma map1_id (m : Mat A) : map1 id m = m.
Proof.
  unfold map1. rewrite <- (list_fmap_id m) at 2. apply list_fmap_ext.
  intros i row _. apply list_fmap_id.
Qed.

End ArrayFacts1.

(** Reading a channel back after it was zipped onto an array of the same
    shape. *)
Lemma map1_map2_r {A B C} (f : A -> B -> C) (g : C -> B) (a : Mat A) (b : Mat B) :
  (forall x y, g (f x y) = y) -> shape a = shape b ->
  map1 g (map2 (fun x y => f x y) a b) = b.
Proof.
  intros Hgf Hs. apply list_eq; intros i.
  assert (Hi : shape a !! i = shape b !! i) by (rewrite Hs; reflexivity).
  rewrite !shape_lookup in Hi. unfold map1, map2.
  rewrite list_lookup_fmap, lookup_zip_with.
  destruct (a !! i) as [ra|], (b !! i) as [rb|]; simpl in *;
    try discriminate; [|reflexivity].
  injection Hi as Hi. f_equal. apply list_eq; intros j.
  rewrite list_lookup_fmap, lookup_zip_with.
  destruct (rb !! j) as [y|] eqn:Ey.
  - assert (is_Some (ra !! j)) as [x Ex].
    { apply lookup_lt_is_Some. rewrite Hi. apply lookup_lt_is_Some. eauto. }
    rewrite Ex. simpl. rewrite Hgf. reflexivity.
  - destruct (ra !! j); reflexivity.
Qed.

Lemma zip_with_fmap_diag {A B C D} (f : B -> C -> D) (g : A -> B) (h : A -> C)
    (l : list A) :
  zip_with f (g <$> l) (h <$> l) = (fun x => f (g x) (h x)) <$> l.
Proof. induction l as [|x l IH]; simpl; [reflexivity|]. f_equal. exact IH. Qed.

Lemma map2_map1 {A B C D} (f : B -> C -> D) (g : A -> B) (h : A -> C)
    (m : Mat A) :
  map2 f (map1 g m) (map1 h m) = map1 (fun x => f (g x) (h x)) m.
Proof.
  unfold map2, map1. rewrite zip_with_fmap_diag.
  apply list_fmap_ext. intros i row _. apply zip_with_fmap_diag.
Qed.

Lemma all_px_map1 {A B} (P : A -> Prop) (Q : B -> Prop) (f : A -> B) (m : Mat A) :
  (forall x, P x -> Q (f x)) -> all_px P m -> all_px Q (map1 f m).
Proof.
  intros HPQ Hm i j y. rewrite pixel_at_map1.
  destruct (pixel_at m i j) as [x|] eqn:Ex; simpl; [|discriminate].
  intros [= <-]. eauto.
Qed.

Lemma all_px_row {A} (P : A -> Prop) (m : Mat A) i row :
  all_px P m -> m !! i = Some row -> Forall P row.
Proof.
  intros Hm Hi. apply Forall_lookup. intros j x Hj. apply (Hm i j).
  unfold pixel_at. rewrite Hi. exact Hj.
Qed.

(** ** Morphology on masks *)

Module MorphFacts.
Import cv2.

Lemma sample_at_pixel {A} (m : Mat A) y x v :
  sample_at m y x = Some v -> exists i j, pixel_at m i j = Some v.
Proof.
  unfold sample_at. destruct (_ && _); [eauto|discriminate].
Qed.

Lemma neighbours_all (P : Z -> Prop) k m i j :
  all_px P m -> Forall P (neighbours k m i j).
Proof.
  intros Hm. apply Forall_forall. intros v Hv.
  apply list_elem_of_omap in Hv as (d & _ & Hd).
  apply sample_at_pixel in Hd as (i' & j' & Hd). eauto.
Qed.

Lemma neighbours_centre k m i j v :
  (0, 0) ∈ k -> pixel_at m i j = Some v -> v ∈ neighbours k m i j.
Proof.
  intros Hk Hv. apply list_elem_of_omap. exists (0, 0). split.
  - exact Hk.
  - unfold sample_at. simpl.
    replace (Z.of_nat i + 0) with (Z.of_nat i) by lia.
    replace (Z.of_nat j + 0) with (Z.of_nat j) by lia.
    rewrite !Nat2Z.id.
    rewrite (proj2 (Z.leb_le 0 (Z.of_nat i))) by lia.
    rewrite (proj2 (Z.leb_le 0 (Z.of_nat j))) by lia. exact Hv.
Qed.

Lemma foldr_closed (P : Z -> Prop) (op : Z -> Z -> Z) z l :
  P z -> (forall a b, P a -> P b -> P (op a b)) -> Forall P l ->
  P (foldr op z l).
Proof. intros Hz Hop Hl. induction Hl; simpl; auto. Qed.

Lemma erode1_all (P : Z -> Prop) k m :
  P 255 -> (forall a b, P a -> P b -> P (Z.min a b)) ->
  all_px P m -> all_px P (erode1 k m).
Proof.
  intros H255 Hmin Hm i j v. unfold erode1.
  rewrite (pixel_at_imap2 (fun i j _ => foldr Z.min 255 (neighbours k m i j))).
  destruct (pixel_at m i j); simpl; [|discriminate]. intros [= <-].
  apply foldr_closed; auto using neighbours_all.
Qed.

Lemma dilate1_all (P : Z -> Prop) k m :
  P 0 -> (forall a b, P a -> P b -> P (Z.max a b)) ->
  all_px P m -> all_px P (dilate1 k m).
Proof.
  intros H0 Hmax Hm i j v. unfold dilate1.
  rewrite (pixel_at_imap2 (fun i j _ => foldr Z.max 0 (neighbours k m i j))).
  destruct (pixel_at m i j); simpl; [|discriminate]. intros [= <-].
  apply foldr_closed; auto using neighbours_all.
Qed.

Lemma foldr_max_255 l :
  Forall (fun v => v = 255) l -> 255 ∈ l -> foldr Z.max 0 l = 255.
Proof.
  intros Hl. induction Hl as [|v l -> Hl IH]; intros Hin.
  - inversion Hin.
  - simpl. assert (0 <= foldr Z.max 0 l <= 255); [|lia].
    clear IH Hin. induction Hl as [|w l -> Hl IH]; simpl; lia.
Qed.

(** Dilating a mask that is 255 everywhere leaves it 255 everywhere: the
    centre of the neighbourhood is always inside the image. *)
Lemma dilate1_full k m :
  (0, 0) ∈ k ->
  all_px (fun v => v = 255) m -> all_px (fun v => v = 255) (dilate1 k m).
Proof.
  intros Hk Hm i j v. unfold dilate1.
  rewrite (pixel_at_imap2 (fun i j _ => foldr Z.max 0 (neighbours k m i j))).
  destruct (pixel_at m i j) as [c|] eqn:Ec; simpl; [|discriminate].
  intros [= <-]. apply foldr_max_255.
  - apply neighbours_all; assumption.
  - rewrite <- (Hm i j c Ec) at 1. apply neighbours_centre; assumption.
Qed.

Lemma shape_erode1 k m : shape (erode1 k m) = shape m.
Proof.
  unfold erode1.
  apply (shape_imap2 (fun i j _ => foldr Z.min 255 (neighbours k m i j))).
Qed.

Lemma shape_dilate1 k m : shape (dilate1 k m) = shape m.
Proof.
  unfold dilate1.
  apply (shape_imap2 (fun i j _ => foldr Z.max 0 (neighbours k m i j))).
Qed.

Lemma kernel3x3_centre : (0, 0) ∈ kernel3x3.
Proof. apply list_elem_of_In. unfold kernel3x3. simpl. tauto. Qed.

Lemma iter_invariant {A} (Q : A -> Prop) (f : A -> A) n x :
  (forall y, Q y -> Q (f y)) -> Q x -> Q (Nat.iter n f x).
Proof. intros Hf Hx. induction n; simpl; auto. Qed.

Lemma shape_erode m k n : shape (erode m k n) = shape m.
Proof.
  unfold erode. apply (iter_invariant (fun y => shape y = shape m));
    [|reflexivity]. intros y <-. apply shape_erode1.
Qed.

Lemma shape_dilate m k n : shape (dilate m k n) = shape m.
Proof.
  unfold dilate. apply (iter_invariant (fun y => shape y = shape m));
    [|reflexivity]. intros y <-. apply shape_dilate1.
Qed.

End MorphFacts.

(** ** The separable blur *)

Module BlurFacts.
Import cv2 F64Facts.

Lemma foldl_add_zero l : forall acc,
  zero_px acc -> Forall zero_px l -> zero_px (foldl F64.add acc l).
Proof.
  induction l as [|x l IH]; intros acc Hacc Hl; simpl; [assumption|].
  inversion Hl; subst. apply IH; [apply add_zero|]; assumption.
Qed.

Lemma border_sample_zero line p :
  Forall zero_px line -> zero_px (border_sample line p).
Proof.
  intros Hl. unfold border_sample.
  destruct (line !! _) as [x|] eqn:Ex; simpl; [|reflexivity].
  exact (proj1 (Forall_lookup _ _) Hl _ _ Ex).
Qed.

Lemma tap1D_zero kernel line pos :
  Forall finite_px kernel -> Forall zero_px line ->
  zero_px (tap1D kernel line pos).
Proof.
  intros Hk Hl. unfold tap1D. apply foldl_add_zero; [reflexivity|].
  apply Forall_forall. intros y Hy.
  apply elem_of_lookup_imap_1 in Hy as (t & w & -> & Hw).
  apply mul_zero_l.
  - exact (proj1 (Forall_lookup _ _) Hk _ _ Hw).
  - apply border_sample_zero; assumption.
Qed.

Lemma filter_rows_zero kernel src :
  Forall finite_px kernel -> all_px zero_px src ->
  all_px zero_px (filter_rows kernel src).
Proof.
  intros Hk Hs i j y. unfold filter_rows, pixel_at.
  rewrite list_lookup_fmap.
  destruct (src !! i) as [row|] eqn:Er; simpl; [|discriminate].
  rewrite list_lookup_imap. destruct (row !! j); simpl; [|discriminate].
  intros [= <-]. apply tap1D_zero; [assumption|].
  eapply all_px_row; eassumption.
Qed.

Lemma column_zero src j : all_px zero_px src -> Forall zero_px (column src j).
Proof.
  intros Hs. apply Forall_forall. intros y Hy. unfold column in Hy.
  apply list_elem_of_fmap in Hy as (row & -> & Hrow).
  apply list_elem_of_lookup in Hrow as (i & Hi).
  destruct (row !! j) as [x|] eqn:Ex; simpl; [|reflexivity].
  apply (Hs i j). unfold pixel_at. rewrite Hi. exact Ex.
Qed.

Lemma filter_columns_zero kernel src :
  Forall finite_px kernel -> all_px zero_px src ->
  all_px zero_px (filter_columns kernel src).
Proof.
  intros Hk Hs i j y. unfold filter_columns.
  rewrite (pixel_at_imap2 (fun i j _ => tap1D kernel (column src j) i)).
  destruct (pixel_at src i j); simpl; [|discriminate]. intros [= <-].
  apply tap1D_zero; [assumption|]. apply column_zero; assumption.
Qed.

Lemma shape_filter_rows kernel src : shape (filter_rows kernel src) = shape src.
Proof.
  apply list_eq; intros i. rewrite !shape_lookup. unfold filter_rows.
  rewrite list_lookup_fmap. destruct (src !! i); simpl; [|reflexivity].
  f_equal. apply length_imap.
Qed.

Lemma shape_filter_columns kernel src :
  shape (filter_columns kernel src) = shape src.
Proof.
  unfold filter_columns.
  apply (shape_imap2 (fun i j _ => tap1D kernel (column src j) i)).
Qed.

Lemma shape_GaussianBlur `{Imgproc} src ksize :
  shape (GaussianBlur src ksize) = shape src.
Proof.
  unfold GaussianBlur. rewrite shape_filter_columns. apply shape_filter_rows.
Qed.

(** Blurring an all-zero channel gives an all-zero channel, borders
    included, whatever finite coefficients are used. *)
Lemma GaussianBlur_zero `{Imgproc} src ksize :
  Forall finite_px (getGaussianKernel ksize) ->
  all_px zero_px src -> all_px zero_px (GaussianBlur src ksize).
Proof.
  intros Hk Hs. unfold GaussianBlur.
  apply filter_columns_zero; [assumption|].
  apply filter_rows_zero; assumption.
Qed.

End BlurFacts.

(** ** The pipeline, stage by stage *)

Lemma gtb_nonpos z : z <= 0 -> (z >? 0) = false.
Proof. intros. rewrite Z.gtb_ltb. apply Z.ltb_ge. assumption. Qed.

Lemma gtb_pos z : 0 < z -> (z >? 0) = true.
Proof. intros. rewrite Z.gtb_ltb. apply Z.ltb_lt. assumption. Qed.

Section PipelineFacts.
Context `{Imgproc}.

(** Step 7 acts on every pixel separately. *)
Lemma despill_map1 img s : despill img s = map1 (despill_px s) img.
Proof.
  unfold despill, cv2.split, cv2.merge, np.where_, np.subtract_uint8,
    np.astype_uint8, np.multiply_float, np.astype_float, np.logical_and,
    np.greater, np.greater_scalar, np.maximum_scalar, np.subtract_int16,
    np.maximum.
  destruct (F64.ltb F64.zero s) eqn:Es.
  - repeat first [rewrite map2_map1|rewrite map1_map1].
    apply map1_ext. intros i j p _.
    unfold despill_px, despill_mask, despill_amount, green_excess, max_rb.
    rewrite Es. simpl. reflexivity.
  - repeat first [rewrite map2_map1|rewrite map1_map1].
    apply map1_ext. intros i j p _.
    unfold despill_px. rewrite Es. destruct p; reflexivity.
Qed.

Lemma shape_despill img s : shape (despill img s) = shape img.
Proof. rewrite despill_map1. apply shape_map1. Qed.

Lemma green_mask_pixel img lo hi i j :
  pixel_at (green_mask img lo hi) i j =
  (fun p => cv2.inRange_px lo hi (BGR2HSV p)) <$> pixel_at img i j.
Proof.
  unfold green_mask, cv2.inRange, cv2.cvtColor_BGR2HSV.
  rewrite map1_map1. apply pixel_at_map1.
Qed.

Lemma shape_green_mask img lo hi : shape (green_mask img lo hi) = shape img.
Proof.
  unfold green_mask, cv2.inRange, cv2.cvtColor_BGR2HSV.
  rewrite !shape_map1. reflexivity.
Qed.

Lemma inRange_px_binary lo hi q : binary (cv2.inRange_px lo hi q).
Proof.
  unfold cv2.inRange_px, binary. destruct lo as [[? ?] ?], hi as [[? ?] ?].
  destruct (_ && _); auto.
Qed.

Lemma green_mask_binary img lo hi : all_px binary (green_mask img lo hi).
Proof.
  intros i j v. rewrite green_mask_pixel.
  destruct (pixel_at img i j); simpl; [|discriminate]. intros [= <-].
  apply inRange_px_binary.
Qed.

Lemma shape_refine_mask m k e d : shape (refine_mask m k e d) = shape m.
Proof.
  unfold refine_mask. destruct (e >? 0), (d >? 0);
    rewrite ?MorphFacts.shape_dilate, ?MorphFacts.shape_erode; reflexivity.
Qed.

(** Erosion and dilation with the 3x3 kernel keep any property of samples
    that holds of 0 and 255 and is closed under [min] and [max]. *)
Lemma refine_mask_all (P : Z -> Prop) m k e d :
  P 0 -> P 255 ->
  (forall a b, P a -> P b -> P (Z.min a b)) ->
  (forall a b, P a -> P b -> P (Z.max a b)) ->
  all_px P m -> all_px P (refine_mask m k e d).
Proof.
  intros H0 H255 Hmin Hmax Hm. unfold refine_mask, cv2.erode, cv2.dilate.
  assert (He : all_px P (if e >? 0
                         then Nat.iter (Z.to_nat e) (cv2.erode1 k) m else m)).
  { destruct (e >? 0); [|assumption].
    apply MorphFacts.iter_invariant; [|assumption].
    intros y Hy. apply MorphFacts.erode1_all; assumption. }
  destruct (d >? 0); [|assumption].
  apply MorphFacts.iter_invariant; [|assumption].
  intros y Hy. apply MorphFacts.dilate1_all; assumption.
Qed.

Lemma refine_mask_binary m k e d :
  all_px binary m -> all_px binary (refine_mask m k e d).
Proof.
  apply refine_mask_all; unfold binary; [auto|auto|lia|lia].
Qed.

Lemma refine_mask_full m k e d :
  (0, 0) ∈ k ->
  all_px (fun v => v = 255) m ->
  all_px (fun v => v = 255) (refine_mask m k e d).
Proof.
  intros Hk Hm. unfold refine_mask, cv2.erode, cv2.dilate.
  assert (He : all_px (fun v => v = 255)
                 (if e >? 0 then Nat.iter (Z.to_nat e) (cv2.erode1 k) m
                  else m)).
  { destruct (e >? 0); [|assumption].
    apply MorphFacts.iter_invariant; [|assumption].
    intros y Hy. apply MorphFacts.erode1_all; [reflexivity|lia|assumption]. }
  destruct (d >? 0); [|assumption].
  apply MorphFacts.iter_invariant; [|assumption].
  intros y Hy. apply MorphFacts.dilate1_full; assumption.
Qed.

Lemma shape_raw_alpha m : shape (raw_alpha m) = shape m.
Proof. apply shape_map1. Qed.

Lemma raw_alpha_binary m : all_px binary m -> all_px binary (raw_alpha m).
Proof.
  apply all_px_map1. intros x [->| ->]; [right|left]; reflexivity.
Qed.

Lemma shape_feather a f : shape (feather a f) = shape a.
Proof.
  unfold feather, np.astype_uint8, np.multiply_float, np.divide_float,
    np.astype_float.
  rewrite !shape_map1. destruct (f >? 0).
  - rewrite BlurFacts.shape_GaussianBlur, !shape_map1. reflexivity.
  - rewrite !shape_map1. reflexivity.
Qed.

(** Without blur, step 6 converts every sample to [float] and back. *)
Lemma feather_no_blur a f :
  f <= 0 -> feather a f = map1 alpha_round_trip a.
Proof.
  intros Hf. unfold feather.
  rewrite (gtb_nonpos f Hf).
  unfold np.astype_uint8, np.multiply_float, np.divide_float, np.astype_float.
  rewrite !map1_map1. reflexivity.
Qed.

Lemma alpha_round_trip_binary v : binary v -> alpha_round_trip v = v.
Proof. intros [->| ->]; vm_compute; reflexivity. Qed.

Lemma feather_binary a f : f <= 0 -> all_px binary a -> feather a f = a.
Proof.
  intros Hf Ha. rewrite feather_no_blur by assumption.
  rewrite <- (map1_id a) at 2. apply map1_ext.
  intros i j x Hx. apply alpha_round_trip_binary. eauto.
Qed.

(** A positive even feather amount is incremented before the blur. *)
Lemma feather_even a n :
  0 < n -> n mod 2 = 0 -> feather a n = feather a (n + 1).
Proof.
  intros Hn Heven. unfold feather.
  rewrite (gtb_pos n), (gtb_pos (n + 1)) by lia.
  replace (n mod 2 =? 0) with true by (symmetry; apply Z.eqb_eq; assumption).
  replace ((n + 1) mod 2 =? 0) with false; [reflexivity|].
  symmetry. apply Z.eqb_neq. rewrite Z.add_mod, Heven by lia.
  discriminate.
Qed.

(** A fully transparent channel stays fully transparent through step 6. *)
Lemma feather_zero a f :
  kernel_finite -> all_px (fun v => v = 0) a -> all_px (fun v => v = 0) (feather a f).
Proof.
  intros Hk Ha. unfold feather.
  set (af := np.divide_float (np.astype_float a) (F64.of_Z 255)).
  assert (Haf : all_px zero_px af).
  { unfold af, np.divide_float, np.astype_float. rewrite map1_map1.
    eapply all_px_map1; [|exact Ha]. intros x ->. reflexivity. }
  assert (Hb : all_px zero_px
                 (if f >? 0
                  then cv2.GaussianBlur af
                         (if f mod 2 =? 0 then f + 1 else f)
                  else af)).
  { destruct (f >? 0); [|assumption].
    apply BlurFacts.GaussianBlur_zero; [apply Hk|assumption]. }
  unfold np.astype_uint8, np.multiply_float. rewrite map1_map1.
  eapply all_px_map1; [|exact Hb]. intros x Hx. simpl.
  unfold np.float_to_uint8. rewrite F64Facts.trunc_zero; [reflexivity|].
  apply F64Facts.mul_zero_r; [assumption|reflexivity].
Qed.

(** The cast back to [uint8] leaves every alpha sample in [0, 255]. *)
Lemma feather_uint8 a f : all_px uint8 (feather a f).
Proof.
  unfold feather, np.astype_uint8.
  apply (all_px_map1 (fun _ => True)); [|intros i j x _; exact I].
  intros x _. unfold np.float_to_uint8, np.wrap_uint8, uint8.
  pose proof (Z.mod_pos_bound (F64.trunc x) 256 ltac:(lia)). lia.
Qed.

Lemma shape_final_alpha img f e d lo hi :
  shape (final_alpha img f e d lo hi) = shape img.
Proof.
  unfold final_alpha.
  rewrite shape_feather, shape_raw_alpha, shape_refine_mask.
  apply shape_green_mask.
Qed.

(** What a call returns when the image can be read. *)
Lemma remove_background_advanced_saved imread ip op s f e d lo hi img :
  imread ip = Some img ->
  remove_background_advanced imread ip op s f e d lo hi =
  Saved op (set_alpha (cv2.cvtColor_BGR2BGRA (despill img s))
                      (final_alpha img f e d lo hi)).
Proof.
  intros Hr. unfold remove_background_advanced. rewrite Hr. reflexivity.
Qed.

Lemma shape_output img s alpha :
  shape alpha = shape img ->
  shape (set_alpha (cv2.cvtColor_BGR2BGRA (despill img s)) alpha) = shape img.
Proof.
  intros Ha. unfold set_alpha, cv2.cvtColor_BGR2BGRA.
  rewrite shape_map2; rewrite shape_map1, shape_despill; [reflexivity|].
  symmetry; assumption.
Qed.

(** The written pixel at a position of the input image: the colour is the
    despilled input pixel, the fourth channel is the computed alpha. *)
Lemma output_pixel img s alpha i j p :
  shape alpha = shape img -> pixel_at img i j = Some p ->
  exists a, pixel_at alpha i j = Some a /\
    pixel_at (set_alpha (cv2.cvtColor_BGR2BGRA (despill img s)) alpha) i j =
    Some (mkBGRA (blue p) (green (despill_px s p)) (red p) a).
Proof.
  intros Ha Hp.
  destruct (shape_pixel_at img alpha i j (eq_sym Ha)) as [a Halpha]; [eauto|].
  exists a. split; [assumption|].
  unfold set_alpha, cv2.cvtColor_BGR2BGRA.
  rewrite pixel_at_map2, pixel_at_map1, despill_map1, pixel_at_map1.
  rewrite Hp, Halpha. reflexivity.
Qed.

Lemma output_alpha img s alpha :
  shape alpha = shape img ->
  map1 bgra_a (set_alpha (cv2.cvtColor_BGR2BGRA (despill img s)) alpha) = alpha.
Proof.
  intros Ha. unfold set_alpha.
  apply (map1_map2_r (fun p a => mkBGRA (bgra_b p) (bgra_g p) (bgra_r p) a)).
  - reflexivity.
  - unfold cv2.cvtColor_BGR2BGRA. rewrite shape_map1, shape_despill.
    symmetry; assumption.
Qed.

End PipelineFacts.

(** ** The spill corrector at one pixel *)

Section DespillFacts.

Lemma wrap_int16_small z : -32768 <= z < 32768 -> np.wrap_int16 z = z.
Proof. intros Hz. unfold np.wrap_int16. rewrite Z.mod_small; lia. Qed.

Lemma wrap_uint8_small z : uint8 z -> np.wrap_uint8 z = z.
Proof. unfold uint8, np.wrap_uint8. intros Hz. apply Z.mod_small. lia. Qed.

(** The source's excess and mask are the specification's. *)
Lemma green_excess_spec p : wf_pixel p -> green_excess p = spec_excess p.
Proof.
  intros (Hb & Hg & Hr). unfold green_excess, spec_excess, max_rb, uint8 in *.
  rewrite wrap_int16_small by lia. lia.
Qed.

Lemma despill_mask_spec p : wf_pixel p -> despill_mask p = spec_eligible p.
Proof.
  intros Hp. unfold despill_mask, spec_eligible.
  rewrite green_excess_spec by assumption. reflexivity.
Qed.

Lemma spec_excess_uint8 p : wf_pixel p -> uint8 (spec_excess p).
Proof. intros (Hb & Hg & Hr). unfold spec_excess, uint8 in *. lia. Qed.

Lemma spec_eligible_excess p :
  spec_eligible p = true ->
  spec_excess p = green p - Z.max (red p) (blue p) /\ 20 < spec_excess p.
Proof.
  unfold spec_eligible. intros Hp. apply andb_true_iff in Hp as [Hg He].
  rewrite Z.gtb_ltb in Hg, He. apply Z.ltb_lt in Hg, He.
  unfold spec_excess in *. lia.
Qed.

(** For a strength in the unit interval the cast to [uint8] is a plain
    truncation and the amount does not exceed the excess. *)
Lemma despill_amount_spec s p :
  valid_strength s -> wf_pixel p ->
  despill_amount s p = F64.trunc (F64.mul (F64.of_Z (spec_excess p)) s) /\
  0 <= despill_amount s p <= spec_excess p.
Proof.
  intros (Hv & H0 & H1) Hp. unfold despill_amount, np.float_to_uint8.
  rewrite green_excess_spec by assumption.
  pose proof (spec_excess_uint8 p Hp) as He.
  pose proof (F64Facts.trunc_mul_bound _ s He Hv H0 H1) as Hb.
  rewrite wrap_uint8_small by (unfold uint8 in *; lia). split; [reflexivity|lia].
Qed.

(** A strength for which [despill_strength > 0] fails is a zero. *)
Lemma strength_not_positive s :
  valid_strength s -> F64.ltb F64.zero s = false -> F64.is_zero s = true.
Proof.
  intros (_ & H0 & _) Hlt. destruct s as [sg|sg| |sg m x]; try reflexivity;
    exfalso.
  - destruct sg; vm_compute in H0, Hlt; discriminate.
  - vm_compute in H0. discriminate.
  - destruct sg; cbv [F64.ltb F64.leb SFltb SFleb SFcompare F64.zero] in H0, Hlt;
      discriminate.
Qed.

Lemma trunc_mul_zero e s :
  uint8 e -> F64.is_zero s = true -> F64.trunc (F64.mul (F64.of_Z e) s) = 0.
Proof.
  intros He Hs. apply F64Facts.trunc_zero. destruct s; try discriminate.
  destruct (F64Facts.of_Z_uint8 e He) as [[_ ->]|(m & x & -> & _)];
    reflexivity.
Qed.

(** The new green sample, for a strength in the unit interval. *)
Lemma despill_px_green s p :
  valid_strength s -> wf_pixel p ->
  green (despill_px s p) =
  if spec_eligible p
  then green p - F64.trunc (F64.mul (F64.of_Z (spec_excess p)) s)
  else green p.
Proof.
  intros Hs Hp. unfold despill_px. cbn [green].
  rewrite despill_mask_spec by assumption.
  destruct (despill_amount_spec s p Hs Hp) as [Ha Hb].
  destruct (spec_eligible p) eqn:El.
  - destruct (spec_eligible_excess p El) as [Hex Hgt].
    destruct (F64.ltb F64.zero s) eqn:Elt.
    + rewrite <- Ha. apply wrap_uint8_small.
      destruct Hp as (Hpb & Hpg & Hpr). unfold uint8 in *. lia.
    + rewrite trunc_mul_zero; [lia|apply spec_excess_uint8; assumption|].
      apply strength_not_positive; assumption.
  - destruct (F64.ltb F64.zero s); reflexivity.
Qed.

Lemma despill_px_not_eligible s p :
  wf_pixel p -> spec_eligible p = false -> green (despill_px s p) = green p.
Proof.
  intros Hp El. unfold despill_px. cbn [green].
  rewrite despill_mask_spec, El by assumption.
  destruct (F64.ltb F64.zero s); reflexivity.
Qed.

End DespillFacts.

(** ** The model on concrete inputs *)

Example hsv_pure_green : OpenCV.RGB2HSV_b pure_green = mkHSV 60 255 255.
Proof. reflexivity. Qed.

Example hsv_pure_white : OpenCV.RGB2HSV_b pure_white = mkHSV 0 0 255.
Proof. reflexivity. Qed.

(** [10 * 0.7] is [7.0] in [float64], although the double nearest to 0.7
    lies below 7/10. *)
Example trunc_ten_times_default_strength :
  F64.trunc (F64.mul (F64.of_Z 10) default_despill_strength) = 7.
Proof. vm_compute. reflexivity. Qed.

(** [170 * 0.7] is just below 119 in [float64], so 118 is subtracted. *)
Example despill_spill_px :
  despill_px default_despill_strength spill_px = mkBGR 10 82 30.
Proof. vm_compute. reflexivity. Qed.

(** The conversion of an alpha sample to [float] and back is exact on the
    whole 8-bit range. *)
Example alpha_round_trip_exact :
  F64.uint8_all (fun a => alpha_round_trip a =? a) = true.
Proof. vm_compute. reflexivity. Qed.

(** With the default arguments a 4x4 green image becomes fully transparent,
    the green sample being reduced by [trunc (255 * 0.7) = 178]. *)
Example default_run_all_green :
  remove_background_advanced (H := opencv) (one_file (all_green 4 4))
    "in.png" "out.png" default_despill_strength default_feather_amount
    default_erode_iterations default_dilate_iterations
    default_lower_green default_upper_green =
  Saved "out.png" (replicate 4 (replicate 4 (mkBGRA 0 77 0 0))).
Proof. vm_compute. reflexivity. Qed.

(** Feather 3 next to a green pixel: the blur reaches two columns. *)
Example feathered_edge :
  map1 bgra_a
    match
      remove_background_advanced (H := opencv)
        (one_file [[pure_green; pure_white; pure_white; pure_white]])
        "in.png" "out.png" default_despill_strength 3 0 0
        default_lower_green default_upper_green
    with
    | Saved _ bgra => bgra
    | Raised _ => []
    end = [[127; 191; 255; 255]].
Proof. vm_compute. reflexivity. Qed.

Example missing_file_raises :
  remove_background_advanced (H := opencv) (one_file (all_green 4 4))
    "missing.png" "out.png" default_despill_strength default_feather_amount
    default_erode_iterations default_dilate_iterations
    default_lower_green default_upper_green =
  Raised (FileNotFoundError "missing.png").
Proof. reflexivity. Qed.

(** ** Properties of the spill corrector *)

Section SpillClaims.
Context `{Imgproc}.
Variable imread : string -> option (Mat BGR).
Variables image_path output_path : string.
Variables feather_amount erode_iterations dilate_iterations : Z.
Variables lower_green upper_green : Z * Z * Z.

Local Abbreviation run despill_strength :=
  (remove_background_advanced imread image_path output_path despill_strength
     feather_amount erode_iterations dilate_iterations lower_green upper_green).

(** Claim C1.  For every pixel of the input image and a despill strength in
    [0.0, 1.0], the written green sample is the input green minus
    [trunc (excess * despill_strength)] (the product taken in [float64])
    exactly when green is strictly greater than [max (red, blue)] and the
    excess, [max (0, green - max (red, blue))], exceeds 20; on every other
    pixel the green sample equals its input value. *)
Theorem C1_despill_subtracts_truncated_excess s img i j p :
  valid_strength s ->
  imread image_path = Some img ->
  pixel_at img i j = Some p ->
  wf_pixel p ->
  exists bgra q,
    run s = Saved output_path bgra /\
    pixel_at bgra i j = Some q /\
    bgra_g q =
      if spec_eligible p
      then green p - F64.trunc (F64.mul (F64.of_Z (spec_excess p)) s)
      else green p.
Proof.
  intros Hs Hread Hpx Hwf.
  rewrite (remove_background_advanced_saved _ _ _ _ _ _ _ _ _ _ Hread).
  destruct (output_pixel img s _ i j p
              (shape_final_alpha img feather_amount erode_iterations
                 dilate_iterations lower_green upper_green) Hpx)
    as (a & _ & Hout).
  eexists _, _. split; [reflexivity|]. split; [exact Hout|].
  cbn [bgra_g]. apply despill_px_green; assumption.
Qed.

(** Claim C2.  Strength 0.0 leaves the green sample of every pixel equal to
    its input value.  Strength 1.0 reduces the green sample of every
    despill-eligible pixel to exactly [max (red, blue)]; a pixel with
    red = 0, blue = 0, green = 200 gets green 0. *)
Theorem C2_strength_zero_is_noop_and_one_removes_excess img i j p :
  imread image_path = Some img ->
  pixel_at img i j = Some p ->
  wf_pixel p ->
  (exists bgra q,
     run F64.zero = Saved output_path bgra /\
     pixel_at bgra i j = Some q /\ bgra_g q = green p) /\
  (exists bgra q,
     run F64.one = Saved output_path bgra /\
     pixel_at bgra i j = Some q /\
     (spec_eligible p = true -> bgra_g q = Z.max (red p) (blue p)) /\
     (red p = 0 -> blue p = 0 -> green p = 200 -> bgra_g q = 0)).
Proof.
  intros Hread Hpx Hwf.
  pose proof (shape_final_alpha img feather_amount erode_iterations
                dilate_iterations lower_green upper_green) as Hshape.
  assert (Hone : spec_eligible p = true ->
                 green (despill_px F64.one p) = Z.max (red p) (blue p)).
  { intros El. rewrite despill_px_green, El; [| |assumption].
    - rewrite F64Facts.trunc_mul_one by (apply spec_excess_uint8; assumption).
      destruct (spec_eligible_excess p El). lia.
    - repeat split; vm_compute; reflexivity. }
  split;
    rewrite (remove_background_advanced_saved _ _ _ _ _ _ _ _ _ _ Hread).
  - destruct (output_pixel img F64.zero _ i j p Hshape Hpx) as (a & _ & Hout).
    eexists _, _. split; [reflexivity|]. split; [exact Hout|]. reflexivity.
  - destruct (output_pixel img F64.one _ i j p Hshape Hpx) as (a & _ & Hout).
    eexists _, _. split; [reflexivity|]. split; [exact Hout|].
    cbn [bgra_g]. split; [exact Hone|].
    intros Hr Hb Hg. rewrite Hone.
    + rewrite Hr, Hb. reflexivity.
    + unfold spec_eligible, spec_excess. rewrite Hr, Hb, Hg. reflexivity.
Qed.

(** Claim C6.  The spill corrector works on the channels of the input image
    and changes only the green sample of despill-eligible pixels: for every
    strength, the written red and blue samples of every pixel, and the green
    sample of every pixel that is not eligible, equal the input values. *)
Theorem C6_despill_changes_only_eligible_green s img i j p :
  imread image_path = Some img ->
  pixel_at img i j = Some p ->
  wf_pixel p ->
  exists bgra q,
    run s = Saved output_path bgra /\
    pixel_at bgra i j = Some q /\
    bgra_b q = blue p /\ bgra_r q = red p /\
    (spec_eligible p = false -> bgra_g q = green p).
Proof.
  intros Hread Hpx Hwf.
  rewrite (remove_background_advanced_saved _ _ _ _ _ _ _ _ _ _ Hread).
  destruct (output_pixel img s _ i j p
              (shape_final_alpha img feather_amount erode_iterations
                 dilate_iterations lower_green upper_green) Hpx)
    as (a & _ & Hout).
  eexists _, _. split; [reflexivity|]. split; [exact Hout|].
  cbn [bgra_b bgra_g bgra_r]. split; [reflexivity|]. split; [reflexivity|].
  apply despill_px_not_eligible; assumption.
Qed.

(** Claim C10.  For every input pixel and every strength in [0.0, 1.0] the
    despill subtraction does not wrap around the 8-bit range: the amount is
    between 0 and the excess, the [uint8] subtraction equals the exact
    difference, the new green lies between [max (red, blue)] and the old
    green on eligible pixels and is the old green elsewhere, and the three
    colour samples written, and the alpha sample, stay in [0, 255]. *)
Theorem C10_despill_never_wraps s img i j p :
  valid_strength s ->
  imread image_path = Some img ->
  pixel_at img i j = Some p ->
  wf_pixel p ->
  0 <= F64.trunc (F64.mul (F64.of_Z (spec_excess p)) s) <= spec_excess p /\
  despill_amount s p = F64.trunc (F64.mul (F64.of_Z (spec_excess p)) s) /\
  (spec_eligible p = true ->
   np.wrap_uint8 (green p - despill_amount s p) =
   green p - despill_amount s p) /\
  exists bgra q,
    run s = Saved output_path bgra /\
    pixel_at bgra i j = Some q /\
    (spec_eligible p = true ->
     Z.max (red p) (blue p) <= bgra_g q <= green p) /\
    (spec_eligible p = false -> bgra_g q = green p) /\
    uint8 (bgra_b q) /\ uint8 (bgra_g q) /\ uint8 (bgra_r q) /\
    uint8 (bgra_a q).
Proof.
  intros Hs Hread Hpx Hwf.
  destruct (despill_amount_spec s p Hs Hwf) as [Ha Hb].
  pose proof Hwf as (Hpb & Hpg & Hpr).
  assert (Hel : spec_eligible p = true ->
                uint8 (green p - despill_amount s p) /\
                Z.max (red p) (blue p) <= green p - despill_amount s p).
  { intros El. destruct (spec_eligible_excess p El). unfold uint8 in *. lia. }
  split; [rewrite <- Ha; exact Hb|]. split; [exact Ha|].
  split; [intros El; apply wrap_uint8_small, Hel, El|].
  rewrite (remove_background_advanced_saved _ _ _ _ _ _ _ _ _ _ Hread).
  destruct (output_pixel img s _ i j p
              (shape_final_alpha img feather_amount erode_iterations
                 dilate_iterations lower_green upper_green) Hpx)
    as (a & Halpha & Hout).
  assert (Hua : uint8 a).
  { unfold final_alpha in Halpha. exact (feather_uint8 _ _ _ _ _ Halpha). }
  eexists _, _. split; [reflexivity|]. split; [exact Hout|].
  cbn [bgra_b bgra_g bgra_r bgra_a].
  rewrite (despill_px_green s p Hs Hwf), <- Ha.
  destruct (spec_eligible p) eqn:El.
  - destruct (Hel eq_refl) as [Hu Hm]. unfold uint8 in *.
    repeat split; try discriminate; try assumption; lia.
  - repeat split; try discriminate; try assumption; unfold uint8 in *; lia.
Qed.

End SpillClaims.


Lemma C1_witness :
  exists bgra q,
    remove_background_advanced (H := opencv) (one_file [[spill_px]])
      "in.png" "out.png" default_despill_strength 5 0 1
      default_lower_green default_upper_green = Saved "out.png" bgra /\
    pixel_at bgra 0 0 = Some q /\
    bgra_g q =
      if spec_eligible spill_px
      then green spill_px -
           F64.trunc (F64.mul (F64.of_Z (spec_excess spill_px))
                              default_despill_strength)
      else green spill_px.
Proof.
  apply (C1_despill_subtracts_truncated_excess (H := opencv)
           (one_file [[spill_px]]) "in.png" "out.png" 5 0 1
           default_lower_green default_upper_green
           default_despill_strength [[spill_px]] 0 0 spill_px).
  - unfold valid_strength. split; [|split]; vm_compute; reflexivity.
  - reflexivity.
  - reflexivity.
  - unfold wf_pixel, uint8, spill_px; simpl; lia.
Defined.

Lemma C2_witness :
  (exists bgra q,
     remove_background_advanced (H := opencv) (one_file [[mkBGR 0 200 0]])
       "in.png" "out.png" F64.zero 5 0 1
       default_lower_green default_upper_green = Saved "out.png" bgra /\
     pixel_at bgra 0 0 = Some q /\ bgra_g q = green (mkBGR 0 200 0)) /\
  (exists bgra q,
     remove_background_advanced (H := opencv) (one_file [[mkBGR 0 200 0]])
       "in.png" "out.png" F64.one 5 0 1
       default_lower_green default_upper_green = Saved "out.png" bgra /\
     pixel_at bgra 0 0 = Some q /\
     (spec_eligible (mkBGR 0 200 0) = true ->
      bgra_g q = Z.max (red (mkBGR 0 200 0)) (blue (mkBGR 0 200 0))) /\
     (red (mkBGR 0 200 0) = 0 -> blue (mkBGR 0 200 0) = 0 ->
      green (mkBGR 0 200 0) = 200 -> bgra_g q = 0)).
Proof.
  apply (C2_strength_zero_is_noop_and_one_removes_excess (H := opencv)
           (one_file [[mkBGR 0 200 0]]) "in.png" "out.png" 5 0 1
           default_lower_green default_upper_green
           [[mkBGR 0 200 0]] 0 0 (mkBGR 0 200 0)).
  - reflexivity.
  - reflexivity.
  - unfold wf_pixel, uint8; simpl; lia.
Defined.

Lemma C6_witness :
  exists bgra q,
    remove_background_advanced (H := opencv)
      (one_file [[pure_white; spill_px]])
      "in.png" "out.png" default_despill_strength 5 0 1
      default_lower_green default_upper_green = Saved "out.png" bgra /\
    pixel_at bgra 0 0 = Some q /\
    bgra_b q = blue pure_white /\ bgra_r q = red pure_white /\
    (spec_eligible pure_white = false -> bgra_g q = green pure_white).
Proof.
  apply (C6_despill_changes_only_eligible_green (H := opencv)
           (one_file [[pure_white; spill_px]]) "in.png" "out.png" 5 0 1
           default_lower_green default_upper_green
           default_despill_strength [[pure_white; spill_px]] 0 0 pure_white).
  - reflexivity.
  - reflexivity.
  - unfold wf_pixel, uint8, pure_white; simpl; lia.
Defined.

Lemma C10_witness :
  0 <= F64.trunc (F64.mul (F64.of_Z (spec_excess spill_px))
                          default_despill_strength) <= spec_excess spill_px /\
  despill_amount default_despill_strength spill_px =
  F64.trunc (F64.mul (F64.of_Z (spec_excess spill_px))
                     default_despill_strength) /\
  (spec_eligible spill_px = true ->
   np.wrap_uint8 (green spill_px - despill_amount default_despill_strength spill_px) =
   green spill_px - despill_amount default_despill_strength spill_px) /\
  exists bgra q,
    remove_background_advanced (H := opencv) (one_file [[spill_px]])
      "in.png" "out.png" default_despill_strength 5 0 1
      default_lower_green default_upper_green = Saved "out.png" bgra /\
    pixel_at bgra 0 0 = Some q /\
    (spec_eligible spill_px = true ->
     Z.max (red spill_px) (blue spill_px) <= bgra_g q <= green spill_px) /\
    (spec_eligible spill_px = false -> bgra_g q = green spill_px) /\
    uint8 (bgra_b q) /\ uint8 (bgra_g q) /\ uint8 (bgra_r q) /\
    uint8 (bgra_a q).
Proof.
  apply (C10_despill_never_wraps (H := opencv)
           (one_file [[spill_px]]) "in.png" "out.png" 5 0 1
           default_lower_green default_upper_green
           default_despill_strength [[spill_px]] 0 0 spill_px).
  - unfold valid_strength. split; [|split]; vm_compute; reflexivity.
  - reflexivity.
  - reflexivity.
  - unfold wf_pixel, uint8, spill_px; simpl; lia.
Defined.

(** ** Properties of the classifier and of the alpha channel *)

Lemma inRange_px_255 lh ls lv uh us uv q :
  cv2.inRange_px (lh, ls, lv) (uh, us, uv) q = 255 <->
  lh <= hue q <= uh /\ ls <= sat q <= us /\ lv <= val q <= uv.
Proof.
  unfold cv2.inRange_px.
  destruct (_ && _) eqn:E.
  - rewrite !andb_true_iff, !Z.leb_le in E. split; [lia|reflexivity].
  - split; [discriminate|]. intros Hq. exfalso.
    rewrite <- not_true_iff_false in E. apply E.
    rewrite !andb_true_iff, !Z.leb_le. lia.
Qed.

Lemma lookup_replicate_px {A} (x y : A) h w i j :
  pixel_at (replicate h (replicate w x)) i j = Some y -> y = x.
Proof.
  unfold pixel_at. destruct (replicate h _ !! i) as [row|] eqn:Er;
    simpl; [|discriminate].
  apply lookup_replicate in Er as [-> _]. intros Hj.
  apply lookup_replicate in Hj as [-> _]. reflexivity.
Qed.

Lemma opencv_kernel_finite : kernel_finite (H := opencv).
Proof.
  intros ksize. unfold getGaussianKernel, opencv, OpenCV.imgproc,
    OpenCV.gaussian_kernel, OpenCV.small_gaussian_tab.
  destruct (ksize =? 1); [repeat constructor|].
  destruct (ksize =? 3); [repeat constructor|].
  destruct (ksize =? 5); [repeat constructor|].
  destruct (ksize =? 7); [repeat constructor|]. constructor.
Qed.

Lemma all_green_within_bounds h w :
  within_bounds (H := opencv) default_lower_green default_upper_green
    (all_green h w).
Proof.
  intros i j p Hp. apply lookup_replicate_px in Hp as ->.
  vm_compute. reflexivity.
Qed.

Section AlphaClaims.
Context `{Imgproc}.
Variable imread : string -> option (Mat BGR).
Variables image_path output_path : string.

(** Claim C5.  For bounds that fit a C [int], a pixel is marked background
    (mask 255) if and only if its hue, saturation and value each lie in the
    closed interval given by the bounds; the mask holds only 0 and 255; when
    a lower bound exceeds its upper bound no pixel is marked; and the mark
    of a pixel depends on nothing but the pixel and the bounds. *)
Theorem C5_classifier_marks_closed_interval img lh ls lv uh us uv i j p :
  c_int_bounds (lh, ls, lv) -> c_int_bounds (uh, us, uv) ->
  pixel_at img i j = Some p ->
  (pixel_at (green_mask img (lh, ls, lv) (uh, us, uv)) i j = Some 255 <->
   lh <= hue (BGR2HSV p) <= uh /\
   ls <= sat (BGR2HSV p) <= us /\
   lv <= val (BGR2HSV p) <= uv) /\
  (pixel_at (green_mask img (lh, ls, lv) (uh, us, uv)) i j = Some 255 \/
   pixel_at (green_mask img (lh, ls, lv) (uh, us, uv)) i j = Some 0) /\
  (uh < lh \/ us < ls \/ uv < lv ->
   pixel_at (green_mask img (lh, ls, lv) (uh, us, uv)) i j = Some 0) /\
  (forall img' i' j',
     pixel_at img' i' j' = Some p ->
     pixel_at (green_mask img' (lh, ls, lv) (uh, us, uv)) i' j' =
     pixel_at (green_mask img (lh, ls, lv) (uh, us, uv)) i j).
Proof.
  intros _ _ Hp. rewrite green_mask_pixel, Hp. cbn [fmap option_fmap option_map].
  pose proof (inRange_px_255 lh ls lv uh us uv (BGR2HSV p)) as H255.
  pose proof (inRange_px_binary (lh, ls, lv) (uh, us, uv) (BGR2HSV p)) as Hbin.
  split; [|split; [|split]].
  - split.
    + intros [= Hq]. apply H255, Hq.
    + intros Hq. f_equal. apply H255, Hq.
  - destruct Hbin as [-> | ->]; auto.
  - intros Hempty. destruct Hbin as [Hz|H1]; [rewrite Hz; reflexivity|].
    apply H255 in H1. lia.
  - intros img' i' j' Hp'. rewrite green_mask_pixel, Hp'. reflexivity.
Qed.


(** Claim C7.  When every pixel of the image lies within the bounds, the
    pipeline writes, for every strength, feather amount and iteration
    counts, a four-channel image of the same height and width whose alpha is
    0 at every pixel, border pixels included. *)
Theorem C7_image_within_bounds_is_fully_transparent s f e d lo hi img :
  kernel_finite ->
  imread image_path = Some img ->
  within_bounds lo hi img ->
  exists bgra,
    remove_background_advanced imread image_path output_path s f e d lo hi =
    Saved output_path bgra /\
    shape bgra = shape img /\
    all_px (fun q => bgra_a q = 0) bgra.
Proof.
  intros Hk Hread Hin.
  rewrite (remove_background_advanced_saved _ _ _ _ _ _ _ _ _ _ Hread).
  eexists. split; [reflexivity|].
  pose proof (shape_final_alpha img f e d lo hi) as Hshape.
  split; [apply shape_output; assumption|].
  assert (Hzero : all_px (fun v => v = 0) (final_alpha img f e d lo hi)).
  { unfold final_alpha. apply feather_zero; [assumption|].
    apply (all_px_map1 (fun v => v = 255)); [intros x ->; reflexivity|].
    apply refine_mask_full; [exact MorphFacts.kernel3x3_centre|].
    intros i j v. rewrite green_mask_pixel.
    destruct (pixel_at img i j) as [p|] eqn:Ep; simpl; [|discriminate].
    intros [= <-]. exact (Hin i j p Ep). }
  intros i j q Hq.
  assert (Ha : pixel_at (map1 bgra_a
                 (set_alpha (cv2.cvtColor_BGR2BGRA (despill img s))
                            (final_alpha img f e d lo hi))) i j
               = Some (bgra_a q))
    by (rewrite pixel_at_map1, Hq; reflexivity).
  rewrite output_alpha in Ha by assumption. exact (Hzero i j _ Ha).
Qed.

(** A strength that is not greater than 0 acts as 0.0, and feather, erosion
    and dilation amounts below 0 act as 0: each guard of the source skips
    its step. *)
Lemma remove_background_advanced_skips s f e d lo hi img :
  imread image_path = Some img ->
  remove_background_advanced imread image_path output_path
    (if F64.ltb F64.zero s then s else F64.zero)
    (Z.max 0 f) (Z.max 0 e) (Z.max 0 d) lo hi =
  remove_background_advanced imread image_path output_path s f e d lo hi.
Proof.
  intros Hread.
  rewrite !(remove_background_advanced_saved _ _ _ _ _ _ _ _ _ _ Hread).
  f_equal. f_equal.
  - f_equal. rewrite !despill_map1. apply map1_ext. intros i j p _.
    unfold despill_px. destruct (F64.ltb F64.zero s) eqn:Es.
    + rewrite Es. reflexivity.
    + reflexivity.
  - unfold final_alpha.
    assert (Hmask : refine_mask (green_mask img lo hi) cv2.kernel3x3
                      (Z.max 0 e) (Z.max 0 d)
                    = refine_mask (green_mask img lo hi) cv2.kernel3x3 e d).
    { unfold refine_mask.
      destruct (Z.max_spec 0 e) as [[He ->]|[He ->]],
               (Z.max_spec 0 d) as [[Hd ->]|[Hd ->]];
        rewrite ?(gtb_nonpos e), ?(gtb_nonpos d) by lia; reflexivity. }
    rewrite Hmask.
    destruct (Z.max_spec 0 f) as [[Hf ->]|[Hf ->]]; [reflexivity|].
    rewrite !feather_no_blur by lia. reflexivity.
Qed.

(** Claim C4, amended.  A despill strength below 0.0 and negative erosion,
    dilation or feather amounts do not make the call fail.  For a readable
    image, a [.png] output path, amounts not above the sliders' maxima,
    bounds that fit a C [int] and a strength that is within [0.0, 1.0] or
    not greater than 0, the call writes an output of the input's height and
    width, and that output is the one of the call in which a strength that
    is not greater than 0 is replaced by 0.0 and negative feather, erosion
    and dilation amounts are replaced by 0. *)
Theorem C4_values_below_range_skip_their_step s f e d lo hi img :
  imread image_path = Some img ->
  nonempty img ->
  supported_arguments output_path f e d lo hi ->
  valid_strength s \/ F64.ltb F64.zero s = false ->
  exists bgra,
    remove_background_advanced imread image_path output_path s f e d lo hi =
    Saved output_path bgra /\
    shape bgra = shape img /\
    remove_background_advanced imread image_path output_path
      (if F64.ltb F64.zero s then s else F64.zero)
      (Z.max 0 f) (Z.max 0 e) (Z.max 0 d) lo hi =
    Saved output_path bgra.
Proof.
  intros Hread _ _ _.
  rewrite (remove_background_advanced_skips s f e d lo hi img Hread).
  rewrite (remove_background_advanced_saved _ _ _ _ _ _ _ _ _ _ Hread).
  eexists. split; [reflexivity|].
  split; [apply shape_output, shape_final_alpha|reflexivity].
Qed.

End AlphaClaims.

Lemma C5_witness :
  (pixel_at (green_mask (H := opencv) [[pure_green]] (35, 100, 100) (85, 255, 255))
     0 0 = Some 255 <->
   35 <= hue (BGR2HSV (Imgproc := opencv) pure_green) <= 85 /\
   100 <= sat (BGR2HSV (Imgproc := opencv) pure_green) <= 255 /\
   100 <= val (BGR2HSV (Imgproc := opencv) pure_green) <= 255) /\
  (pixel_at (green_mask (H := opencv) [[pure_green]] (35, 100, 100) (85, 255, 255))
     0 0 = Some 255 \/
   pixel_at (green_mask (H := opencv) [[pure_green]] (35, 100, 100) (85, 255, 255))
     0 0 = Some 0) /\
  (85 < 35 \/ 255 < 100 \/ 255 < 100 ->
   pixel_at (green_mask (H := opencv) [[pure_green]] (35, 100, 100) (85, 255, 255))
     0 0 = Some 0) /\
  (forall img' i' j',
     pixel_at img' i' j' = Some pure_green ->
     pixel_at (green_mask (H := opencv) img' (35, 100, 100) (85, 255, 255)) i' j' =
     pixel_at (green_mask (H := opencv) [[pure_green]] (35, 100, 100) (85, 255, 255))
       0 0).
Proof.
  apply (C5_classifier_marks_closed_interval (H := opencv)
           [[pure_green]] 35 100 100 85 255 255 0 0 pure_green).
  - unfold c_int_bounds, c_int. simpl. lia.
  - unfold c_int_bounds, c_int. simpl. lia.
  - reflexivity.
Defined.


Lemma C7_witness :
  exists bgra,
    remove_background_advanced (H := opencv) (one_file (all_green 4 4))
      "in.png" "out.png" default_despill_strength default_feather_amount
      default_erode_iterations default_dilate_iterations
      default_lower_green default_upper_green = Saved "out.png" bgra /\
    shape bgra = shape (all_green 4 4) /\
    all_px (fun q => bgra_a q = 0) bgra.
Proof.
  apply (C7_image_within_bounds_is_fully_transparent (H := opencv)
           (one_file (all_green 4 4)) "in.png" "out.png"
           default_despill_strength default_feather_amount
           default_erode_iterations default_dilate_iterations
           default_lower_green default_upper_green (all_green 4 4)).
  - exact opencv_kernel_finite.
  - reflexivity.
  - exact (all_green_within_bounds 4 4).
Defined.

(** Claim C4 as stated fails: a despill strength of -0.5 with erosion and
    dilation counts of -1 is accepted, and an output is written. *)
Lemma C4_counterexample :
  F64.leb F64.zero minus_half = false /\
  remove_background_advanced (H := opencv) (one_file (one_green false false))
    "in.png" "out.png" minus_half 0 (-1) (-1)
    default_lower_green default_upper_green =
  Saved "out.png" (one_green_output false false 255) /\
  forall e,
    remove_background_advanced (H := opencv) (one_file (one_green false false))
      "in.png" "out.png" minus_half 0 (-1) (-1)
      default_lower_green default_upper_green <> Raised e.
Proof.
  split; [vm_compute; reflexivity|].
  assert (Hrun :
    remove_background_advanced (H := opencv) (one_file (one_green false false))
      "in.png" "out.png" minus_half 0 (-1) (-1)
      default_lower_green default_upper_green =
    Saved "out.png" (one_green_output false false 255))
    by (vm_compute; reflexivity).
  split; [exact Hrun|]. intros e. rewrite Hrun. discriminate.
Qed.

Lemma C4_witness :
  exists bgra,
    remove_background_advanced (H := opencv) (one_file (one_green false false))
      "in.png" "out.png" minus_half (-3) (-1) (-2)
      default_lower_green default_upper_green = Saved "out.png" bgra /\
    shape bgra = shape (one_green false false) /\
    remove_background_advanced (H := opencv) (one_file (one_green false false))
      "in.png" "out.png"
      (if F64.ltb F64.zero minus_half then minus_half else F64.zero)
      (Z.max 0 (-3)) (Z.max 0 (-1)) (Z.max 0 (-2))
      default_lower_green default_upper_green = Saved "out.png" bgra.
Proof.
  apply (C4_values_below_range_skip_their_step (H := opencv)
           (one_file (one_green false false)) "in.png" "out.png"
           minus_half (-3) (-1) (-2)
           default_lower_green default_upper_green (one_green false false)).
  - reflexivity.
  - reflexivity.
  - unfold supported_arguments, c_int_bounds, c_int, png_path,
      feather_maximum, iterations_maximum. simpl.
    repeat split; lia.
  - right. vm_compute. reflexivity.
Defined.

(** ** The 2x2 scenario *)

Lemma despill_px_white s : despill_px s pure_white = pure_white.
Proof.
  unfold despill_px.
  replace (despill_mask pure_white) with false by (vm_compute; reflexivity).
  destruct (F64.ltb F64.zero s); reflexivity.
Qed.

(** Claim C8.  For a 2x2 input with one pure-green pixel, wherever it is,
    and three pure-white pixels, with feather 0, erode 0, dilate 0 and the
    default bounds, for every despill strength: the written alpha is 0 on
    the green pixel and 255 on the white pixels, and the white pixels keep
    their colour. *)
Theorem C8_one_green_three_white large_kernel s gi gj :
  exists g',
    remove_background_advanced (H := OpenCV.imgproc large_kernel)
      (one_file (one_green gi gj)) "in.png" "out.png" s 0 0 0
      default_lower_green default_upper_green =
    Saved "out.png" (one_green_output gi gj g').
Proof.
  exists (green (despill_px s pure_green)).
  rewrite (remove_background_advanced_saved (H := OpenCV.imgproc large_kernel)
             (one_file (one_green gi gj)) "in.png" "out.png" s 0 0 0
             default_lower_green default_upper_green (one_green gi gj) eq_refl).
  f_equal. rewrite despill_map1.
  destruct gi, gj;
    match goal with
    | |- context [@final_alpha ?cv ?img ?f ?e ?d ?lo ?hi] =>
        let v := eval vm_compute in (@final_alpha cv img f e d lo hi) in
        change (@final_alpha cv img f e d lo hi) with v
    end;
    unfold one_green, one_green_output, set_alpha, cv2.cvtColor_BGR2BGRA,
      map1, map2;
    cbn [Bool.eqb andb fmap list_fmap zip_with];
    rewrite !despill_px_white; reflexivity.
Qed.

(** ** Further properties of the mask and of the alpha channel *)

Lemma map1_map2_l {A B C D} (f : A -> B -> C) (g : C -> D) (h : A -> D)
    (a : Mat A) (b : Mat B) :
  (forall x y, g (f x y) = h x) -> shape a = shape b ->
  map1 g (map2 f a b) = map1 h a.
Proof.
  intros Hgf Hs. apply list_eq; intros i.
  assert (Hi : shape a !! i = shape b !! i) by (rewrite Hs; reflexivity).
  rewrite !shape_lookup in Hi. unfold map1, map2.
  rewrite !list_lookup_fmap, lookup_zip_with.
  destruct (a !! i) as [ra|], (b !! i) as [rb|]; simpl in *;
    try discriminate; [|reflexivity].
  injection Hi as Hi. f_equal. apply list_eq; intros j.
  rewrite !list_lookup_fmap, lookup_zip_with.
  destruct (ra !! j) as [x|] eqn:Ex; [|reflexivity].
  assert (is_Some (rb !! j)) as [y Ey].
  { apply lookup_lt_is_Some. rewrite <- Hi. apply lookup_lt_is_Some. eauto. }
  rewrite Ey. simpl. rewrite Hgf. reflexivity.
Qed.

Lemma sample_at_map1 {A B} (f : A -> B) (m : Mat A) y x :
  sample_at (map1 f m) y x = f <$> sample_at m y x.
Proof.
  unfold sample_at. destruct (_ && _); [apply pixel_at_map1|reflexivity].
Qed.

Module MorphFacts2.
Import cv2 MorphFacts.

Lemma foldr_min_le l x : x ∈ l -> foldr Z.min 255 l <= x.
Proof.
  induction l as [|y l IH]; intros Hin; [inversion Hin|].
  simpl. apply elem_of_cons in Hin as [->|Hin]; [lia|].
  specialize (IH Hin). lia.
Qed.

Lemma foldr_max_ge l x : x ∈ l -> x <= foldr Z.max 0 l.
Proof.
  induction l as [|y l IH]; intros Hin; [inversion Hin|].
  simpl. apply elem_of_cons in Hin as [->|Hin]; [lia|].
  specialize (IH Hin). lia.
Qed.

(** One dilation keeps every background sample of a mask. *)
Lemma dilate1_keeps_255 k m i j :
  (0, 0) ∈ k -> all_px binary m ->
  pixel_at m i j = Some 255 -> pixel_at (dilate1 k m) i j = Some 255.
Proof.
  intros Hk Hb Hp.
  pose proof (dilate1_all binary k m (or_introl eq_refl)
                ltac:(unfold binary; lia) Hb i j) as Hbin.
  unfold dilate1 in *.
  rewrite (pixel_at_imap2 (fun i j _ => foldr Z.max 0 (neighbours k m i j)))
    in *.
  rewrite Hp in *. simpl in *. f_equal.
  pose proof (foldr_max_ge _ _ (neighbours_centre k m i j 255 Hk Hp)).
  destruct (Hbin _ eq_refl); lia.
Qed.

(** One erosion keeps every foreground sample of a mask. *)
Lemma erode1_keeps_0 k m i j :
  (0, 0) ∈ k -> all_px binary m ->
  pixel_at m i j = Some 0 -> pixel_at (erode1 k m) i j = Some 0.
Proof.
  intros Hk Hb Hp.
  pose proof (erode1_all binary k m (or_intror eq_refl)
                ltac:(unfold binary; lia) Hb i j) as Hbin.
  unfold erode1 in *.
  rewrite (pixel_at_imap2 (fun i j _ => foldr Z.min 255 (neighbours k m i j)))
    in *.
  rewrite Hp in *. simpl in *. f_equal.
  pose proof (foldr_min_le _ _ (neighbours_centre k m i j 0 Hk Hp)).
  destruct (Hbin _ eq_refl); lia.
Qed.

Lemma iter_keeps (f : Mat Z -> Mat Z) v n m i j :
  (forall m', all_px binary m' -> all_px binary (f m')) ->
  (forall m', all_px binary m' -> pixel_at m' i j = Some v ->
              pixel_at (f m') i j = Some v) ->
  all_px binary m -> pixel_at m i j = Some v ->
  pixel_at (Nat.iter n f m) i j = Some v.
Proof.
  intros Hbin Hkeep Hb Hp.
  apply (iter_invariant
           (fun m' => all_px binary m' /\ pixel_at m' i j = Some v));
    [|split; assumption].
  intros m' [Hb' Hp']. split; auto.
Qed.

Lemma dilate_keeps_255 k m n i j :
  (0, 0) ∈ k -> all_px binary m ->
  pixel_at m i j = Some 255 -> pixel_at (dilate m k n) i j = Some 255.
Proof.
  intros Hk Hb Hp. unfold dilate. apply iter_keeps; try assumption.
  - intros m' Hm'. apply dilate1_all; unfold binary in *; auto; lia.
  - intros m' Hm'. apply dilate1_keeps_255; assumption.
Qed.

Lemma erode_keeps_0 k m n i j :
  (0, 0) ∈ k -> all_px binary m ->
  pixel_at m i j = Some 0 -> pixel_at (erode m k n) i j = Some 0.
Proof.
  intros Hk Hb Hp. unfold erode. apply iter_keeps; try assumption.
  - intros m' Hm'. apply erode1_all; unfold binary in *; auto; lia.
  - intros m' Hm'. apply erode1_keeps_0; assumption.
Qed.

(** An erosion clears a mask in which every neighbourhood holds a
    foreground sample. *)
Lemma erode1_clears k m :
  all_px binary m ->
  (forall i j c, pixel_at m i j = Some c -> 0 ∈ neighbours k m i j) ->
  all_px (fun v => v = 0) (erode1 k m).
Proof.
  intros Hb Hn i j v Hv.
  pose proof (erode1_all binary k m (or_intror eq_refl)
                ltac:(unfold binary; lia) Hb i j v Hv) as Hbin.
  unfold erode1 in Hv.
  rewrite (pixel_at_imap2 (fun i j _ => foldr Z.min 255 (neighbours k m i j)))
    in Hv.
  destruct (pixel_at m i j) as [c|] eqn:Ec; simpl in Hv; [|discriminate].
  injection Hv as <-.
  pose proof (foldr_min_le _ _ (Hn i j c Ec)). destruct Hbin; lia.
Qed.

Lemma zero_binary m : all_px (fun v => v = 0) m -> all_px binary m.
Proof. intros Hm i j v Hv. left. eauto. Qed.

Lemma erode1_zero k m :
  (0, 0) ∈ k -> all_px (fun v => v = 0) m -> all_px (fun v => v = 0) (erode1 k m).
Proof.
  intros Hk Hm. apply erode1_clears; [apply zero_binary; assumption|].
  intros i j c Hc. rewrite <- (Hm i j c Hc) at 1.
  apply neighbours_centre; assumption.
Qed.

Lemma dilate1_zero k m :
  all_px (fun v => v = 0) m -> all_px (fun v => v = 0) (dilate1 k m).
Proof. apply dilate1_all; [reflexivity|lia]. Qed.

End MorphFacts2.

Section AlphaFacts.
Context `{Imgproc}.

Lemma final_alpha_no_feather img f e d lo hi :
  f <= 0 ->
  final_alpha img f e d lo hi =
  raw_alpha (refine_mask (green_mask img lo hi) cv2.kernel3x3 e d).
Proof.
  intros Hf. unfold final_alpha. apply feather_binary; [assumption|].
  apply raw_alpha_binary, refine_mask_binary, green_mask_binary.
Qed.

Lemma output_colour img s alpha :
  shape alpha = shape img ->
  map1 colour_of (set_alpha (cv2.cvtColor_BGR2BGRA (despill img s)) alpha) =
  despill img s.
Proof.
  intros Ha. unfold set_alpha.
  rewrite (map1_map2_l _ colour_of colour_of).
  - unfold cv2.cvtColor_BGR2BGRA. rewrite map1_map1.
    rewrite <- (map1_id (despill img s)) at 2. apply map1_ext.
    intros i j [b g r] _. reflexivity.
  - reflexivity.
  - unfold cv2.cvtColor_BGR2BGRA. rewrite shape_map1, shape_despill.
    symmetry; assumption.
Qed.

(** Without feathering, the alpha written at a pixel is the inverted sample
    of the refined mask at that pixel. *)
Lemma alpha_pixel_no_feather imread ip op s f e d lo hi img i j p :
  f <= 0 -> imread ip = Some img -> pixel_at img i j = Some p ->
  exists bgra q m,
    remove_background_advanced imread ip op s f e d lo hi = Saved op bgra /\
    pixel_at bgra i j = Some q /\
    pixel_at (refine_mask (green_mask img lo hi) cv2.kernel3x3 e d) i j
      = Some m /\
    bgra_a q = Z.land (Z.lnot m) 255.
Proof.
  intros Hf Hread Hp.
  rewrite (remove_background_advanced_saved _ _ _ _ _ _ _ _ _ _ Hread).
  destruct (output_pixel img s _ i j p (shape_final_alpha img f e d lo hi) Hp)
    as (a & Ha & Hout).
  rewrite final_alpha_no_feather in Ha by assumption.
  unfold raw_alpha, cv2.bitwise_not in Ha. rewrite pixel_at_map1 in Ha.
  destruct (pixel_at (refine_mask _ _ e d) i j) as [m|] eqn:Em;
    simpl in Ha; [|discriminate].
  injection Ha as <-.
  eexists _, _, m. split; [reflexivity|]. split; [exact Hout|].
  split; reflexivity.
Qed.

Lemma green_mask_sample img lo hi y x :
  sample_at (green_mask img lo hi) y x =
  (fun p => cv2.inRange_px lo hi (BGR2HSV p)) <$> sample_at img y x.
Proof.
  unfold green_mask, cv2.inRange, cv2.cvtColor_BGR2HSV.
  rewrite map1_map1. apply sample_at_map1.
Qed.

Lemma refine_mask_zero m k e d :
  (0, 0) ∈ k ->
  all_px (fun v => v = 0) m -> all_px (fun v => v = 0) (refine_mask m k e d).
Proof.
  intros Hk Hm. unfold refine_mask, cv2.erode, cv2.dilate.
  assert (He : all_px (fun v => v = 0)
                 (if e >? 0 then Nat.iter (Z.to_nat e) (cv2.erode1 k) m
                  else m)).
  { destruct (e >? 0); [|assumption].
    apply MorphFacts.iter_invariant; [|assumption].
    intros y Hy. apply MorphFacts2.erode1_zero; assumption. }
  destruct (d >? 0); [|assumption].
  apply MorphFacts.iter_invariant; [|assumption].
  intros y Hy. apply MorphFacts2.dilate1_zero; assumption.
Qed.

(** At least one erosion clears a mask in which every neighbourhood holds a
    foreground sample; dilation cannot bring anything back. *)
Lemma refine_mask_clears m k e d :
  (0, 0) ∈ k -> 1 <= e -> all_px binary m ->
  (forall i j c, pixel_at m i j = Some c -> 0 ∈ cv2.neighbours k m i j) ->
  all_px (fun v => v = 0) (refine_mask m k e d).
Proof.
  intros Hk He Hb Hn. unfold refine_mask, cv2.erode, cv2.dilate.
  rewrite (gtb_pos e) by lia.
  assert (Her : all_px (fun v => v = 0)
                  (Nat.iter (Z.to_nat e) (cv2.erode1 k) m)).
  { destruct (Z.to_nat e) as [|n] eqn:En; [lia|].
    rewrite Nat.iter_succ_r.
    apply MorphFacts.iter_invariant.
    - intros y Hy. apply MorphFacts2.erode1_zero; assumption.
    - apply MorphFacts2.erode1_clears; assumption. }
  destruct (d >? 0); [|assumption].
  apply MorphFacts.iter_invariant; [|assumption].
  intros y Hy. apply MorphFacts2.dilate1_zero; assumption.
Qed.

End AlphaFacts.

Section PipelineProperties.
Context `{Imgproc}.
Variable imread : string -> option (Mat BGR).
Variables image_path output_path : string.

(** Property X1.  The two halves of the pipeline do not influence each
    other: the colour channels written do not depend on the feather amount,
    the iteration counts or the colour bounds, and the alpha channel written
    does not depend on the despill strength. *)
Theorem X1_colour_and_alpha_are_independent
    s s' f f' e e' d d' lo lo' hi hi' img :
  imread image_path = Some img ->
  exists bgra bgra1 bgra2,
    remove_background_advanced imread image_path output_path s f e d lo hi =
    Saved output_path bgra /\
    remove_background_advanced imread image_path output_path s f' e' d' lo' hi' =
    Saved output_path bgra1 /\
    remove_background_advanced imread image_path output_path s' f e d lo hi =
    Saved output_path bgra2 /\
    map1 colour_of bgra1 = map1 colour_of bgra /\
    map1 bgra_a bgra2 = map1 bgra_a bgra.
Proof.
  intros Hread.
  rewrite !(remove_background_advanced_saved _ _ _ _ _ _ _ _ _ _ Hread).
  eexists _, _, _. repeat (split; [reflexivity|]). split.
  - rewrite !output_colour by apply shape_final_alpha. reflexivity.
  - rewrite !output_alpha by apply shape_final_alpha. reflexivity.
Qed.

(** Property X2.  Without feathering (feather amount 0 or negative) the
    alpha channel is binary: every pixel written is fully transparent (0) or
    fully opaque (255). *)
Theorem X2_alpha_without_feather_is_binary s f e d lo hi img :
  f <= 0 ->
  imread image_path = Some img ->
  exists bgra,
    remove_background_advanced imread image_path output_path s f e d lo hi =
    Saved output_path bgra /\
    all_px (fun q => bgra_a q = 0 \/ bgra_a q = 255) bgra.
Proof.
  intros Hf Hread.
  rewrite (remove_background_advanced_saved _ _ _ _ _ _ _ _ _ _ Hread).
  eexists. split; [reflexivity|]. intros i j q Hq.
  assert (Ha : pixel_at (map1 bgra_a
                 (set_alpha (cv2.cvtColor_BGR2BGRA (despill img s))
                            (final_alpha img f e d lo hi))) i j
               = Some (bgra_a q))
    by (rewrite pixel_at_map1, Hq; reflexivity).
  rewrite output_alpha in Ha by apply shape_final_alpha.
  rewrite final_alpha_no_feather in Ha by assumption.
  exact (raw_alpha_binary _
           (refine_mask_binary _ _ e d (green_mask_binary img lo hi))
           i j _ Ha).
Qed.

(** Property X3.  Dilation only grows the background: when no erosion is
    applied (count 0 or negative) and there is no feathering, every pixel
    that lies within the colour bounds is written fully transparent,
    whatever the dilation count. *)
Theorem X3_pixel_within_bounds_is_transparent s f e d lo hi img i j p :
  f <= 0 -> e <= 0 ->
  imread image_path = Some img ->
  pixel_at img i j = Some p ->
  in_bounds lo hi p ->
  exists bgra q,
    remove_background_advanced imread image_path output_path s f e d lo hi =
    Saved output_path bgra /\
    pixel_at bgra i j = Some q /\ bgra_a q = 0.
Proof.
  intros Hf He Hread Hp Hin.
  destruct (alpha_pixel_no_feather imread image_path output_path s f e d lo hi
              img i j p Hf Hread Hp) as (bgra & q & m & Hrun & Hq & Hm & Ha).
  exists bgra, q. split; [assumption|]. split; [assumption|].
  assert (Hmask : pixel_at (green_mask img lo hi) i j = Some 255).
  { rewrite green_mask_pixel, Hp. simpl. f_equal. exact Hin. }
  assert (m = 255) as ->; [|rewrite Ha; reflexivity].
  unfold refine_mask in Hm. rewrite (gtb_nonpos e He) in Hm.
  destruct (d >? 0).
  - rewrite MorphFacts2.dilate_keeps_255 in Hm;
      [congruence|exact MorphFacts.kernel3x3_centre
      |apply green_mask_binary|assumption].
  - congruence.
Qed.

(** Property X4.  Erosion only shrinks the background: when no dilation is
    applied (count 0 or negative) and there is no feathering, every pixel
    that lies outside the colour bounds is written fully opaque, whatever
    the erosion count. *)
Theorem X4_pixel_outside_bounds_is_opaque s f e d lo hi img i j p :
  f <= 0 -> d <= 0 ->
  imread image_path = Some img ->
  pixel_at img i j = Some p ->
  out_of_bounds lo hi p ->
  exists bgra q,
    remove_background_advanced imread image_path output_path s f e d lo hi =
    Saved output_path bgra /\
    pixel_at bgra i j = Some q /\ bgra_a q = 255.
Proof.
  intros Hf Hd Hread Hp Hout.
  destruct (alpha_pixel_no_feather imread image_path output_path s f e d lo hi
              img i j p Hf Hread Hp) as (bgra & q & m & Hrun & Hq & Hm & Ha).
  exists bgra, q. split; [assumption|]. split; [assumption|].
  assert (Hmask : pixel_at (green_mask img lo hi) i j = Some 0).
  { rewrite green_mask_pixel, Hp. simpl. f_equal. exact Hout. }
  assert (m = 0) as ->; [|rewrite Ha; reflexivity].
  unfold refine_mask in Hm. rewrite (gtb_nonpos d Hd) in Hm.
  destruct (e >? 0).
  - rewrite MorphFacts2.erode_keeps_0 in Hm;
      [congruence|exact MorphFacts.kernel3x3_centre
      |apply green_mask_binary|assumption].
  - congruence.
Qed.

(** Property X5.  Erosion removes specks: when every pixel of the image has
    a foreground pixel in its 3x3 neighbourhood (itself included), one or more
    erosions clear the mask, no dilation count brings it back, and without
    feathering every pixel is written fully opaque. *)
Theorem X5_erosion_removes_specks s f e d lo hi img :
  f <= 0 -> 1 <= e ->
  imread image_path = Some img ->
  (forall i j p, pixel_at img i j = Some p ->
                 has_foreground_neighbour lo hi img i j) ->
  exists bgra,
    remove_background_advanced imread image_path output_path s f e d lo hi =
    Saved output_path bgra /\
    shape bgra = shape img /\
    all_px (fun q => bgra_a q = 255) bgra.
Proof.
  intros Hf He Hread Hn.
  rewrite (remove_background_advanced_saved _ _ _ _ _ _ _ _ _ _ Hread).
  eexists. split; [reflexivity|].
  split; [apply shape_output, shape_final_alpha|].
  intros i j q Hq.
  assert (Ha : pixel_at (map1 bgra_a
                 (set_alpha (cv2.cvtColor_BGR2BGRA (despill img s))
                            (final_alpha img f e d lo hi))) i j
               = Some (bgra_a q))
    by (rewrite pixel_at_map1, Hq; reflexivity).
  rewrite output_alpha in Ha by apply shape_final_alpha.
  rewrite final_alpha_no_feather in Ha by assumption.
  unfold raw_alpha, cv2.bitwise_not in Ha. rewrite pixel_at_map1 in Ha.
  destruct (pixel_at (refine_mask _ _ e d) i j) as [m|] eqn:Em;
    simpl in Ha; [|discriminate].
  injection Ha as <-.
  assert (Hzero : all_px (fun v => v = 0)
            (refine_mask (green_mask img lo hi) cv2.kernel3x3 e d)).
  { apply refine_mask_clears;
      [exact MorphFacts.kernel3x3_centre|assumption
      |apply green_mask_binary|].
    intros i' j' c Hc. rewrite green_mask_pixel in Hc.
    destruct (pixel_at img i' j') as [p|] eqn:Ep; simpl in Hc; [|discriminate].
    destruct (Hn i' j' p Ep) as (dd & q' & Hdd & Hs & Hout).
    apply list_elem_of_omap. exists dd. split; [assumption|].
    rewrite green_mask_sample, Hs. simpl. f_equal. exact Hout. }
  rewrite (Hzero i j m Em). reflexivity.
Qed.

(** Property X6.  An image without any pixel inside the colour bounds is
    written fully opaque when there is no feathering, whatever the erosion
    and dilation counts. *)
Theorem X6_image_outside_bounds_is_fully_opaque s f e d lo hi img :
  f <= 0 ->
  imread image_path = Some img ->
  all_px (out_of_bounds lo hi) img ->
  exists bgra,
    remove_background_advanced imread image_path output_path s f e d lo hi =
    Saved output_path bgra /\
    shape bgra = shape img /\
    all_px (fun q => bgra_a q = 255) bgra.
Proof.
  intros Hf Hread Hall.
  rewrite (remove_background_advanced_saved _ _ _ _ _ _ _ _ _ _ Hread).
  eexists. split; [reflexivity|].
  split; [apply shape_output, shape_final_alpha|].
  intros i j q Hq.
  assert (Ha : pixel_at (map1 bgra_a
                 (set_alpha (cv2.cvtColor_BGR2BGRA (despill img s))
                            (final_alpha img f e d lo hi))) i j
               = Some (bgra_a q))
    by (rewrite pixel_at_map1, Hq; reflexivity).
  rewrite output_alpha in Ha by apply shape_final_alpha.
  rewrite final_alpha_no_feather in Ha by assumption.
  unfold raw_alpha, cv2.bitwise_not in Ha. rewrite pixel_at_map1 in Ha.
  destruct (pixel_at (refine_mask _ _ e d) i j) as [m|] eqn:Em;
    simpl in Ha; [|discriminate].
  injection Ha as <-.
  assert (Hzero : all_px (fun v => v = 0)
            (refine_mask (green_mask img lo hi) cv2.kernel3x3 e d)).
  { apply refine_mask_zero; [exact MorphFacts.kernel3x3_centre|].
    intros i' j' c Hc. rewrite green_mask_pixel in Hc.
    destruct (pixel_at img i' j') as [p|] eqn:Ep; simpl in Hc; [|discriminate].
    injection Hc as <-. exact (Hall i' j' p Ep). }
  rewrite (Hzero i j m Em). reflexivity.
Qed.

End PipelineProperties.

(** ** Despill applied twice, and the 1x1 blur *)

Lemma one_valid_strength : valid_strength F64.one.
Proof. unfold valid_strength. split; [|split]; vm_compute; reflexivity. Qed.

(** After a pass at full strength no pixel is despill-eligible. *)
Lemma despill_px_full_not_eligible p :
  wf_pixel p ->
  wf_pixel (despill_px F64.one p) /\
  spec_eligible (despill_px F64.one p) = false.
Proof.
  intros Hwf. pose proof Hwf as (Hb & Hg & Hr).
  pose proof (despill_px_green F64.one p one_valid_strength Hwf) as Hgreen.
  rewrite F64Facts.trunc_mul_one in Hgreen by (apply spec_excess_uint8; assumption).
  unfold wf_pixel, spec_eligible, spec_excess.
  change (blue (despill_px F64.one p)) with (blue p).
  change (red (despill_px F64.one p)) with (red p).
  rewrite Hgreen. destruct (spec_eligible p) eqn:El.
  - destruct (spec_eligible_excess p El) as [Hex Hgt]. rewrite Hex.
    unfold uint8 in *. split; [lia|].
    apply andb_false_iff. left. rewrite Z.gtb_ltb. apply Z.ltb_ge. lia.
  - split; [auto|]. exact El.
Qed.

Lemma despill_px_after_full s p :
  wf_pixel p -> despill_px s (despill_px F64.one p) = despill_px F64.one p.
Proof.
  intros Hwf. destruct (despill_px_full_not_eligible p Hwf) as [Hwf1 Hne].
  pose proof (despill_px_not_eligible s _ Hwf1 Hne) as Hg.
  unfold despill_px at 1. unfold despill_px at 1 in Hg. cbn [green] in Hg.
  rewrite Hg. reflexivity.
Qed.

Module BlurFacts2.
Import cv2.

Lemma borderInterpolate_inside p len :
  0 <= p < len -> borderInterpolate p len = p.
Proof.
  intros Hp. unfold borderInterpolate.
  destruct (len <=? 1) eqn:El.
  - apply Z.leb_le in El. lia.
  - apply Z.leb_gt in El. cbv zeta.
    rewrite Z.mod_small by lia.
    rewrite (proj2 (Z.ltb_lt p len)) by lia. reflexivity.
Qed.

Lemma tap1D_unit line pos x :
  line !! pos = Some x -> stable x -> tap1D [F64.one] line pos = x.
Proof.
  intros Hx Hst. unfold tap1D. cbn [length imap foldl].
  change (Z.of_nat 1 / 2) with 0.
  replace (Z.of_nat pos + Z.of_nat 0 - 0) with (Z.of_nat pos) by lia.
  unfold border_sample. rewrite borderInterpolate_inside.
  - rewrite Nat2Z.id, Hx. exact Hst.
  - apply lookup_lt_Some in Hx. lia.
Qed.

Lemma filter_rows_unit src :
  all_px stable src -> filter_rows [F64.one] src = src.
Proof.
  intros Hs. unfold filter_rows. rewrite <- (list_fmap_id src) at 2.
  apply list_fmap_ext. intros i row Hrow. change (id row) with row.
  apply list_eq. intros j.
  rewrite list_lookup_imap. destruct (row !! j) as [x|] eqn:Ex; [|reflexivity].
  simpl. f_equal. apply tap1D_unit; [assumption|].
  apply (Hs i j). unfold pixel_at. rewrite Hrow. exact Ex.
Qed.

Lemma filter_columns_unit src :
  all_px stable src -> filter_columns [F64.one] src = src.
Proof.
  intros Hs. unfold filter_columns. apply list_eq. intros i.
  rewrite list_lookup_imap. destruct (src !! i) as [row|] eqn:Erow;
    [|reflexivity].
  simpl. f_equal. apply list_eq. intros j.
  rewrite list_lookup_imap. destruct (row !! j) as [x|] eqn:Ex; [|reflexivity].
  simpl. f_equal. apply tap1D_unit.
  - unfold column. rewrite list_lookup_fmap, Erow. simpl. rewrite Ex.
    reflexivity.
  - apply (Hs i j). unfold pixel_at. rewrite Erow. exact Ex.
Qed.

(** With OpenCV's coefficients a kernel of size 1 leaves a binary alpha
    channel as it is. *)
Lemma feather_one_is_no_blur large_kernel a :
  all_px binary a ->
  feather (H := OpenCV.imgproc large_kernel) a 1 =
  feather (H := OpenCV.imgproc large_kernel) a 0.
Proof.
  intros Ha. unfold feather.
  change (1 >? 0) with true. change (0 >? 0) with false.
  change (1 mod 2 =? 0) with false. cbv iota.
  f_equal. f_equal. unfold GaussianBlur.
  change (getGaussianKernel 1) with [F64.one].
  assert (Hst : all_px stable
                  (np.divide_float (np.astype_float a) (F64.of_Z 255))).
  { unfold np.divide_float, np.astype_float. rewrite map1_map1.
    eapply all_px_map1; [|exact Ha].
    intros x [->| ->]; vm_compute; reflexivity. }
  rewrite filter_rows_unit by assumption.
  apply filter_columns_unit; assumption.
Qed.

End BlurFacts2.

Section RepeatProperties.
Context `{Imgproc}.

(** Property X7.  Despill at full strength is final: when the image written
    with despill strength 1.0 is read back (the alpha channel dropped, as
    [cv2.imread] does) and processed again with any strength and any other
    parameters, the colour channels come out unchanged. *)
Theorem X7_second_pass_after_full_strength_keeps_colours
    imread imread' ip ip' op op' f e d lo hi s' f' e' d' lo' hi' img bgra :
  imread ip = Some img ->
  all_px wf_pixel img ->
  remove_background_advanced imread ip op F64.one f e d lo hi = Saved op bgra ->
  imread' ip' = Some (map1 colour_of bgra) ->
  exists bgra',
    remove_background_advanced imread' ip' op' s' f' e' d' lo' hi' =
    Saved op' bgra' /\
    map1 colour_of bgra' = map1 colour_of bgra.
Proof.
  intros Hread Hwf Hrun Hread'.
  rewrite (remove_background_advanced_saved _ _ _ _ _ _ _ _ _ _ Hread) in Hrun.
  injection Hrun as <-.
  rewrite output_colour in Hread' |- * by apply shape_final_alpha.
  rewrite (remove_background_advanced_saved _ _ _ _ _ _ _ _ _ _ Hread').
  eexists. split; [reflexivity|].
  rewrite output_colour by apply shape_final_alpha.
  rewrite !despill_map1, map1_map1. apply map1_ext.
  intros i j p Hp. apply despill_px_after_full. exact (Hwf i j p Hp).
Qed.

End RepeatProperties.

(** Property X8.  With OpenCV's coefficients a feather amount of 1 blurs
    nothing: the call writes the same output as with feather amount 0. *)
Theorem X8_feather_one_equals_feather_zero
    large_kernel imread ip op s e d lo hi :
  remove_background_advanced (H := OpenCV.imgproc large_kernel)
    imread ip op s 1 e d lo hi =
  remove_background_advanced (H := OpenCV.imgproc large_kernel)
    imread ip op s 0 e d lo hi.
Proof.
  destruct (imread ip) as [img|] eqn:Hread.
  - rewrite !(remove_background_advanced_saved _ _ _ _ _ _ _ _ _ _ Hread).
    unfold final_alpha. rewrite BlurFacts2.feather_one_is_no_blur;
      [reflexivity|].
    apply raw_alpha_binary, refine_mask_binary, green_mask_binary.
  - unfold remove_background_advanced. rewrite Hread. reflexivity.
Qed.

(** ** The web wrapper *)

Module WebFacts.
Import web.

Lemma remove_if_exists_delete (fs : gmap string image_file) path :
  remove_if_exists fs path = delete path fs.
Proof.
  unfold remove_if_exists. case_bool_decide as Hex; [reflexivity|].
  apply map_eq. intros k. rewrite lookup_delete. case_decide; [|reflexivity].
  subst k. destruct (fs !! path) eqn:E; [|reflexivity].
  exfalso. apply Hex. eauto.
Qed.

Lemma cleanup_after_writes (fs : gmap string image_file) a b :
  delete temp_output
    (delete temp_input (<[temp_output := b]> (<[temp_input := a]> fs))) =
  delete temp_output (delete temp_input fs).
Proof.
  apply map_eq. intros k.
  rewrite !lookup_delete, !lookup_insert.
  repeat case_decide; congruence.
Qed.

Lemma cleanup_after_input (fs : gmap string image_file) a :
  delete temp_output (delete temp_input (<[temp_input := a]> fs)) =
  delete temp_output (delete temp_input fs).
Proof.
  apply map_eq. intros k.
  rewrite !lookup_delete, !lookup_insert.
  repeat case_decide; congruence.
Qed.

Lemma imread_written (fs : gmap string image_file) path img :
  imread (imwrite fs path (File3 img)) path = Some img.
Proof. unfold imread, imwrite. rewrite lookup_insert_eq. reflexivity. Qed.

Section Wrapper.
Context `{Imgproc}.

(** The call on an image, when the three [int(...)] conversions succeed. *)
Lemma process_image_runs fs image s feather erode dilate f e d :
  py_int feather = Some f -> py_int erode = Some e -> py_int dilate = Some d ->
  process_image fs (Some image) s feather erode dilate =
  (delete temp_output (delete temp_input fs),
   Some (cvtColor_BGRA2RGBA
           (set_alpha
              (cv2.cvtColor_BGR2BGRA (despill (cvtColor_RGB2BGR image) s))
              (final_alpha (cvtColor_RGB2BGR image) f e d
                 default_lower_green default_upper_green)))).
Proof.
  intros Hf He Hd. unfold process_image. rewrite Hf, He, Hd.
  rewrite (remove_background_advanced_saved _ _ _ _ _ _ _ _ _ _
             (imread_written fs temp_input (cvtColor_RGB2BGR image))).
  unfold imread_unchanged, imwrite. rewrite lookup_insert_eq.
  rewrite !remove_if_exists_delete, cleanup_after_writes. reflexivity.
Qed.

(** The call on an image, when one of the conversions raises. *)
Lemma process_image_fails fs image despill feather erode dilate :
  py_int feather = None \/ py_int erode = None \/ py_int dilate = None ->
  process_image fs (Some image) despill feather erode dilate =
  (delete temp_output (delete temp_input fs), None).
Proof.
  intros Hfail. unfold process_image.
  assert (Hm : match py_int feather, py_int erode, py_int dilate with
               | Some _, Some _, Some _ => False
               | _, _, _ => True
               end).
  { destruct Hfail as [-> |[-> | ->]];
      repeat match goal with |- context [py_int ?n] => destruct (py_int n) end;
      exact I. }
  destruct (py_int feather), (py_int erode), (py_int dilate);
    try contradiction;
    unfold imwrite; rewrite !remove_if_exists_delete, cleanup_after_input;
    reflexivity.
Qed.

End Wrapper.

End WebFacts.

Section WrapperProperties.
Context `{Imgproc}.

(** Property X9.  [process_image] leaves no temporary file behind and touches
    nothing else: after a call on an image the file system is the one before
    the call without ["temp_input.png"] and ["temp_output.png"] (files of
    these names that existed before are gone too), whether the processing
    succeeded or not; a call without an image changes nothing and returns
    [None].  The image has positive height and width, as a NumPy image from
    the front end has: on an empty array [cv2.cvtColor] raises before the
    [try] block is entered. *)
Theorem X9_process_image_cleans_up fs image s feather erode dilate :
  nonempty image ->
  fst (web.process_image fs (Some image) s feather erode dilate) =
  delete web.temp_output (delete web.temp_input fs) /\
  web.process_image fs None s feather erode dilate = (fs, None).
Proof.
  intros _. split; [|reflexivity].
  destruct (py_int feather) as [f|] eqn:Hf;
    [destruct (py_int erode) as [e|] eqn:He;
     [destruct (py_int dilate) as [d|] eqn:Hd|]|].
  - rewrite (WebFacts.process_image_runs fs image s _ _ _ f e d Hf He Hd).
    reflexivity.
  - rewrite WebFacts.process_image_fails by auto. reflexivity.
  - rewrite WebFacts.process_image_fails by auto. reflexivity.
  - rewrite WebFacts.process_image_fails by auto. reflexivity.
Qed.

(** Property X10.  For a despill strength within [0.0, 1.0] and slider
    values that convert to integers not above the sliders' maxima,
    [process_image] returns an RGBA image of the input's height and width,
    the same for every file system.  At every pixel the red and blue samples are those of
    the RGB input (the two channel swaps cancel), the green sample is the
    despilled green, and the alpha sample is the one the pipeline computes
    with the default colour bounds. *)
Theorem X10_process_image_result fs image s feather erode dilate f e d :
  nonempty image ->
  valid_strength s ->
  py_int feather = Some f -> py_int erode = Some e -> py_int dilate = Some d ->
  supported_arguments web.temp_output f e d
    default_lower_green default_upper_green ->
  exists rgba,
    snd (web.process_image fs (Some image) s feather erode dilate) = Some rgba /\
    shape rgba = shape image /\
    forall i j p,
      pixel_at image i j = Some p ->
      exists q,
        pixel_at rgba i j = Some q /\
        rgba_r q = rgb_r p /\
        rgba_b q = rgb_b p /\
        rgba_g q = green (despill_px s (mkBGR (rgb_b p) (rgb_g p) (rgb_r p))) /\
        pixel_at (final_alpha (web.cvtColor_RGB2BGR image) f e d
                    default_lower_green default_upper_green) i j =
        Some (rgba_a q).
Proof.
  intros _ _ Hf He Hd _.
  rewrite (WebFacts.process_image_runs fs image s _ _ _ f e d Hf He Hd).
  eexists. split; [reflexivity|].
  pose proof (shape_final_alpha (web.cvtColor_RGB2BGR image) f e d
                default_lower_green default_upper_green) as Hshape.
  split.
  - unfold web.cvtColor_BGRA2RGBA. rewrite shape_map1.
    rewrite shape_output by assumption. apply shape_map1.
  - intros i j p Hp.
    assert (Hp' : pixel_at (web.cvtColor_RGB2BGR image) i j =
                  Some (mkBGR (rgb_b p) (rgb_g p) (rgb_r p)))
      by (unfold web.cvtColor_RGB2BGR; rewrite pixel_at_map1, Hp; reflexivity).
    destruct (output_pixel _ s _ i j _ Hshape Hp') as (a & Ha & Hout).
    eexists. split.
    + unfold web.cvtColor_BGRA2RGBA. rewrite pixel_at_map1, Hout. reflexivity.
    + cbn [rgba_r rgba_g rgba_b rgba_a bgra_r bgra_g bgra_b bgra_a red blue].
      repeat split. exact Ha.
Qed.

End WrapperProperties.

(** ** The further properties on concrete inputs *)

Lemma single_px_all {A} (P : A -> Prop) (x : A) : P x -> all_px P [[x]].
Proof.
  intros Hx i j y. destruct i as [|i]; [destruct j as [|j]|];
    cbn; intros Hy; try discriminate.
  injection Hy as <-. exact Hx.
Qed.

Lemma one_green_foreground i j p :
  pixel_at (one_green false false) i j = Some p ->
  has_foreground_neighbour (H := opencv)
    default_lower_green default_upper_green (one_green false false) i j.
Proof.
  intros Hp.
  assert (Hij : (i < 2)%nat /\ (j < 2)%nat).
  { destruct i as [|[|i]], j as [|[|j]]; cbn in Hp; try discriminate; lia. }
  destruct Hij as [Hi Hj].
  destruct i as [|[|i]]; [| |lia]; (destruct j as [|[|j]]; [| |lia]).
  - exists (0, 1), pure_white. split; [|split; reflexivity].
    apply list_elem_of_In. simpl. tauto.
  - exists (0, 0), pure_white. split; [|split; reflexivity].
    apply list_elem_of_In. simpl. tauto.
  - exists (0, 0), pure_white. split; [|split; reflexivity].
    apply list_elem_of_In. simpl. tauto.
  - exists (0, 0), pure_white. split; [|split; reflexivity].
    apply list_elem_of_In. simpl. tauto.
Qed.

Lemma X1_witness :
  exists bgra bgra1 bgra2,
    remove_background_advanced (H := opencv) (one_file (one_green false false))
      "in.png" "out.png" default_despill_strength 5 0 1
      default_lower_green default_upper_green = Saved "out.png" bgra /\
    remove_background_advanced (H := opencv) (one_file (one_green false false))
      "in.png" "out.png" default_despill_strength 0 2 0
      (0, 0, 0) (10, 10, 10) = Saved "out.png" bgra1 /\
    remove_background_advanced (H := opencv) (one_file (one_green false false))
      "in.png" "out.png" F64.one 5 0 1
      default_lower_green default_upper_green = Saved "out.png" bgra2 /\
    map1 colour_of bgra1 = map1 colour_of bgra /\
    map1 bgra_a bgra2 = map1 bgra_a bgra.
Proof.
  apply (X1_colour_and_alpha_are_independent (H := opencv)
           (one_file (one_green false false)) "in.png" "out.png"
           default_despill_strength F64.one 5 0 0 2 1 0
           default_lower_green (0, 0, 0) default_upper_green (10, 10, 10)
           (one_green false false)).
  reflexivity.
Defined.

Lemma X2_witness :
  exists bgra,
    remove_background_advanced (H := opencv) (one_file (one_green false false))
      "in.png" "out.png" default_despill_strength 0 1 2
      default_lower_green default_upper_green = Saved "out.png" bgra /\
    all_px (fun q => bgra_a q = 0 \/ bgra_a q = 255) bgra.
Proof.
  apply (X2_alpha_without_feather_is_binary (H := opencv)
           (one_file (one_green false false)) "in.png" "out.png"
           default_despill_strength 0 1 2
           default_lower_green default_upper_green (one_green false false)).
  - lia.
  - reflexivity.
Defined.

Lemma X3_witness :
  exists bgra q,
    remove_background_advanced (H := opencv) (one_file (one_green false false))
      "in.png" "out.png" default_despill_strength 0 0 1
      default_lower_green default_upper_green = Saved "out.png" bgra /\
    pixel_at bgra 0 0 = Some q /\ bgra_a q = 0.
Proof.
  apply (X3_pixel_within_bounds_is_transparent (H := opencv)
           (one_file (one_green false false)) "in.png" "out.png"
           default_despill_strength 0 0 1
           default_lower_green default_upper_green
           (one_green false false) 0 0 pure_green).
  - lia.
  - lia.
  - reflexivity.
  - reflexivity.
  - reflexivity.
Defined.

Lemma X4_witness :
  exists bgra q,
    remove_background_advanced (H := opencv) (one_file (one_green false false))
      "in.png" "out.png" default_despill_strength 0 1 0
      default_lower_green default_upper_green = Saved "out.png" bgra /\
    pixel_at bgra 0 1 = Some q /\ bgra_a q = 255.
Proof.
  apply (X4_pixel_outside_bounds_is_opaque (H := opencv)
           (one_file (one_green false false)) "in.png" "out.png"
           default_despill_strength 0 1 0
           default_lower_green default_upper_green
           (one_green false false) 0 1 pure_white).
  - lia.
  - lia.
  - reflexivity.
  - reflexivity.
  - reflexivity.
Defined.

Lemma X5_witness :
  exists bgra,
    remove_background_advanced (H := opencv) (one_file (one_green false false))
      "in.png" "out.png" default_despill_strength 0 1 1
      default_lower_green default_upper_green = Saved "out.png" bgra /\
    shape bgra = shape (one_green false false) /\
    all_px (fun q => bgra_a q = 255) bgra.
Proof.
  apply (X5_erosion_removes_specks (H := opencv)
           (one_file (one_green false false)) "in.png" "out.png"
           default_despill_strength 0 1 1
           default_lower_green default_upper_green (one_green false false)).
  - lia.
  - lia.
  - reflexivity.
  - exact one_green_foreground.
Defined.

Lemma X6_witness :
  exists bgra,
    remove_background_advanced (H := opencv) (one_file [[pure_white]])
      "in.png" "out.png" default_despill_strength 0 2 3
      default_lower_green default_upper_green = Saved "out.png" bgra /\
    shape bgra = shape [[pure_white]] /\
    all_px (fun q => bgra_a q = 255) bgra.
Proof.
  apply (X6_image_outside_bounds_is_fully_opaque (H := opencv)
           (one_file [[pure_white]]) "in.png" "out.png"
           default_despill_strength 0 2 3
           default_lower_green default_upper_green [[pure_white]]).
  - lia.
  - reflexivity.
  - apply single_px_all. reflexivity.
Defined.

Lemma X7_witness :
  exists bgra',
    remove_background_advanced (H := opencv)
      (one_file (map1 colour_of [[mkBGRA 10 30 30 0]]))
      "in.png" "again.png" default_despill_strength 5 0 1
      default_lower_green default_upper_green = Saved "again.png" bgra' /\
    map1 colour_of bgra' = map1 colour_of [[mkBGRA 10 30 30 0]].
Proof.
  apply (X7_second_pass_after_full_strength_keeps_colours (H := opencv)
           (one_file [[spill_px]])
           (one_file (map1 colour_of [[mkBGRA 10 30 30 0]]))
           "in.png" "in.png" "out.png" "again.png" 0 0 0
           default_lower_green default_upper_green
           default_despill_strength 5 0 1
           default_lower_green default_upper_green
           [[spill_px]] [[mkBGRA 10 30 30 0]]).
  - reflexivity.
  - apply single_px_all. unfold wf_pixel, uint8, spill_px; simpl; lia.
  - vm_compute. reflexivity.
  - reflexivity.
Defined.

Lemma X9_witness :
  fst (web.process_image (H := opencv)
         {[ "temp_output.png" := File3 [[pure_white]];
            "keep.png" := File3 [[pure_green]] ]}
         (Some [[mkRGB 30 200 10]]) default_despill_strength
         (PyInt 5) (PyInt 0) (PyFloat F64.one)) =
  delete web.temp_output
    (delete web.temp_input
       {[ "temp_output.png" := File3 [[pure_white]];
          "keep.png" := File3 [[pure_green]] ]}) /\
  web.process_image (H := opencv)
    {[ "temp_output.png" := File3 [[pure_white]];
       "keep.png" := File3 [[pure_green]] ]}
    None default_despill_strength (PyInt 5) (PyInt 0) (PyFloat F64.one) =
  ({[ "temp_output.png" := File3 [[pure_white]];
      "keep.png" := File3 [[pure_green]] ]}, None).
Proof.
  apply (X9_process_image_cleans_up (H := opencv)
           {[ "temp_output.png" := File3 [[pure_white]];
              "keep.png" := File3 [[pure_green]] ]}
           [[mkRGB 30 200 10]] default_despill_strength
           (PyInt 5) (PyInt 0) (PyFloat F64.one)).
  reflexivity.
Defined.

Lemma X10_witness :
  exists rgba,
    snd (web.process_image (H := opencv) ∅ (Some [[mkRGB 30 200 10]])
           default_despill_strength (PyInt 5) (PyInt 0) (PyFloat F64.one)) =
    Some rgba /\
    shape rgba = shape [[mkRGB 30 200 10]] /\
    forall i j p,
      pixel_at [[mkRGB 30 200 10]] i j = Some p ->
      exists q,
        pixel_at rgba i j = Some q /\
        rgba_r q = rgb_r p /\
        rgba_b q = rgb_b p /\
        rgba_g q =
          green (despill_px default_despill_strength
                   (mkBGR (rgb_b p) (rgb_g p) (rgb_r p))) /\
        pixel_at (final_alpha (H := opencv)
                    (web.cvtColor_RGB2BGR [[mkRGB 30 200 10]]) 5 0 1
                    default_lower_green default_upper_green) i j =
        Some (rgba_a q).
Proof.
  apply (X10_process_image_result (H := opencv) ∅ [[mkRGB 30 200 10]]
           default_despill_strength (PyInt 5) (PyInt 0) (PyFloat F64.one)
           5 0 1).
  - reflexivity.
  - unfold valid_strength. split; [|split]; vm_compute; reflexivity.
  - reflexivity.
  - reflexivity.
  - vm_compute. reflexivity.
  - unfold supported_arguments, c_int_bounds, c_int, png_path,
      feather_maximum, iterations_maximum. simpl.
    repeat split; lia.
Defined.

(** ** Monotonicity of the mask refinement *)

Module MonoFacts.
Import cv2 MorphFacts MorphFacts2.

Lemma mask_le_refl m : mask_le m m.
Proof. split; [reflexivity|]. intros i j a b Ha Hb. rewrite Ha in Hb.
  injection Hb as ->. lia. Qed.

Lemma mask_le_trans m1 m2 m3 : mask_le m1 m2 -> mask_le m2 m3 -> mask_le m1 m3.
Proof.
  intros [Hs12 H12] [Hs23 H23]. split; [congruence|].
  intros i j a c Ha Hc.
  destruct (shape_pixel_at m1 m2 i j Hs12) as [b Hb]; [eauto|].
  specialize (H12 i j a b Ha Hb). specialize (H23 i j b c Hb Hc). lia.
Qed.

Lemma sample_at_shape {A B} (m1 : Mat A) (m2 : Mat B) y x :
  shape m1 = shape m2 ->
  is_Some (sample_at m1 y x) -> is_Some (sample_at m2 y x).
Proof.
  intros Hs. unfold sample_at. destruct (_ && _); [|intros [? ?]; discriminate].
  apply shape_pixel_at; assumption.
Qed.

Lemma neighbours_mono k m1 m2 i j :
  mask_le m1 m2 -> Forall2 Z.le (neighbours k m1 i j) (neighbours k m2 i j).
Proof.
  intros [Hs Hle]. unfold neighbours.
  induction k as [|d k IH]; [constructor|].
  cbn [omap list_omap].
  destruct (sample_at m1 (Z.of_nat i + d.1) (Z.of_nat j + d.2)) as [a|] eqn:Ea.
  - destruct (sample_at_shape m1 m2 _ _ Hs (mk_is_Some _ _ Ea)) as [b Eb].
    rewrite Eb. constructor; [|exact IH].
    unfold sample_at in Ea, Eb. destruct (_ && _); [|discriminate]. eauto.
  - destruct (sample_at m2 (Z.of_nat i + d.1) (Z.of_nat j + d.2)) as [b|] eqn:Eb;
      [|exact IH].
    destruct (sample_at_shape m2 m1 _ _ (eq_sym Hs) (mk_is_Some _ _ Eb))
      as [a Ea']. congruence.
Qed.

Lemma foldr_min_mono l1 l2 :
  Forall2 Z.le l1 l2 -> foldr Z.min 255 l1 <= foldr Z.min 255 l2.
Proof. induction 1; simpl; lia. Qed.

Lemma foldr_max_mono l1 l2 :
  Forall2 Z.le l1 l2 -> foldr Z.max 0 l1 <= foldr Z.max 0 l2.
Proof. induction 1; simpl; lia. Qed.

Lemma erode1_mono k m1 m2 : mask_le m1 m2 -> mask_le (erode1 k m1) (erode1 k m2).
Proof.
  intros Hle. split; [rewrite !shape_erode1; apply Hle|].
  intros i j a b. unfold erode1.
  rewrite (pixel_at_imap2 (fun i j _ => foldr Z.min 255 (neighbours k m1 i j))).
  rewrite (pixel_at_imap2 (fun i j _ => foldr Z.min 255 (neighbours k m2 i j))).
  destruct (pixel_at m1 i j), (pixel_at m2 i j); simpl; try discriminate.
  intros [= <-] [= <-]. apply foldr_min_mono, neighbours_mono, Hle.
Qed.

Lemma dilate1_mono k m1 m2 :
  mask_le m1 m2 -> mask_le (dilate1 k m1) (dilate1 k m2).
Proof.
  intros Hle. split; [rewrite !shape_dilate1; apply Hle|].
  intros i j a b. unfold dilate1.
  rewrite (pixel_at_imap2 (fun i j _ => foldr Z.max 0 (neighbours k m1 i j))).
  rewrite (pixel_at_imap2 (fun i j _ => foldr Z.max 0 (neighbours k m2 i j))).
  destruct (pixel_at m1 i j), (pixel_at m2 i j); simpl; try discriminate.
  intros [= <-] [= <-]. apply foldr_max_mono, neighbours_mono, Hle.
Qed.

(** Erosion never raises a sample, dilation never lowers one. *)
Lemma erode1_le k m : (0, 0) ∈ k -> mask_le (erode1 k m) m.
Proof.
  intros Hk. split; [apply shape_erode1|]. intros i j a b. unfold erode1.
  rewrite (pixel_at_imap2 (fun i j _ => foldr Z.min 255 (neighbours k m i j))).
  intros Ha Hb. rewrite Hb in Ha. simpl in Ha. injection Ha as <-.
  apply foldr_min_le, neighbours_centre; assumption.
Qed.

Lemma dilate1_ge k m : (0, 0) ∈ k -> mask_le m (dilate1 k m).
Proof.
  intros Hk. split; [symmetry; apply shape_dilate1|]. intros i j a b.
  unfold dilate1.
  rewrite (pixel_at_imap2 (fun i j _ => foldr Z.max 0 (neighbours k m i j))).
  intros Ha Hb. rewrite Ha in Hb. simpl in Hb. injection Hb as <-.
  apply foldr_max_ge, neighbours_centre; assumption.
Qed.

Lemma iter_mono (f : Mat Z -> Mat Z) n m1 m2 :
  (forall a b, mask_le a b -> mask_le (f a) (f b)) ->
  mask_le m1 m2 -> mask_le (Nat.iter n f m1) (Nat.iter n f m2).
Proof. intros Hf Hle. induction n; simpl; auto. Qed.

Lemma iter_erode_le k n m : (0, 0) ∈ k -> mask_le (Nat.iter n (erode1 k) m) m.
Proof.
  intros Hk. induction n; simpl; [apply mask_le_refl|].
  eapply mask_le_trans; [apply erode1_le; assumption|exact IHn].
Qed.

Lemma iter_dilate_ge k n m : (0, 0) ∈ k -> mask_le m (Nat.iter n (dilate1 k) m).
Proof.
  intros Hk. induction n; simpl; [apply mask_le_refl|].
  eapply mask_le_trans; [exact IHn|apply dilate1_ge; assumption].
Qed.

Lemma refine_mask_iter m k e d :
  refine_mask m k e d =
  Nat.iter (Z.to_nat d) (dilate1 k) (Nat.iter (Z.to_nat e) (erode1 k) m).
Proof.
  unfold refine_mask, erode, dilate.
  destruct (Z.gtb_spec e 0) as [He|He], (Z.gtb_spec d 0) as [Hd|Hd];
    try reflexivity.
  - replace (Z.to_nat d) with 0%nat by lia. reflexivity.
  - replace (Z.to_nat e) with 0%nat by lia. reflexivity.
  - replace (Z.to_nat e) with 0%nat by lia.
    replace (Z.to_nat d) with 0%nat by lia. reflexivity.
Qed.

(** More erosion and less dilation give a mask that is nowhere above. *)
Lemma refine_mask_mono m k e e' d d' :
  (0, 0) ∈ k -> e <= e' -> d' <= d ->
  mask_le (refine_mask m k e' d') (refine_mask m k e d).
Proof.
  intros Hk He Hd. rewrite !refine_mask_iter.
  replace (Z.to_nat e') with (Z.to_nat e + (Z.to_nat e' - Z.to_nat e))%nat by lia.
  replace (Z.to_nat d) with ((Z.to_nat d - Z.to_nat d') + Z.to_nat d')%nat by lia.
  rewrite !Nat.iter_add.
  eapply mask_le_trans; [|apply iter_dilate_ge; assumption].
  apply iter_mono; [intros a b; apply dilate1_mono|].
  apply iter_mono; [intros a b; apply erode1_mono|].
  apply iter_erode_le; assumption.
Qed.

End MonoFacts.

Section MonotoneProperties.
Context `{Imgproc}.
Variable imread : string -> option (Mat BGR).
Variables image_path output_path : string.

(** Property X12.  Without feathering the alpha channel is monotone in the
    iteration counts: raising the erosion count and lowering the dilation
    count never makes a pixel more transparent.  (Counts of 0 or below all
    mean that the step is skipped.) *)
Theorem X12_more_erosion_less_dilation_is_more_opaque
    s f e e' d d' lo hi img bgra bgra' i j q q' :
  f <= 0 -> e <= e' -> d' <= d ->
  imread image_path = Some img ->
  remove_background_advanced imread image_path output_path s f e d lo hi =
  Saved output_path bgra ->
  remove_background_advanced imread image_path output_path s f e' d' lo hi =
  Saved output_path bgra' ->
  pixel_at bgra i j = Some q ->
  pixel_at bgra' i j = Some q' ->
  bgra_a q <= bgra_a q'.
Proof.
  intros Hf He Hd Hread Hrun Hrun' Hq Hq'.
  rewrite (remove_background_advanced_saved _ _ _ _ _ _ _ _ _ _ Hread) in Hrun.
  rewrite (remove_background_advanced_saved _ _ _ _ _ _ _ _ _ _ Hread) in Hrun'.
  injection Hrun as <-. injection Hrun' as <-.
  assert (Ha : forall e0 d0 q0,
             pixel_at (set_alpha (cv2.cvtColor_BGR2BGRA (despill img s))
                         (final_alpha img f e0 d0 lo hi)) i j = Some q0 ->
             exists m, pixel_at (refine_mask (green_mask img lo hi)
                                   cv2.kernel3x3 e0 d0) i j = Some m /\
                       binary m /\ bgra_a q0 = Z.land (Z.lnot m) 255).
  { intros e0 d0 q0 Hq0.
    assert (Hal : pixel_at (map1 bgra_a
                    (set_alpha (cv2.cvtColor_BGR2BGRA (despill img s))
                               (final_alpha img f e0 d0 lo hi))) i j
                  = Some (bgra_a q0))
      by (rewrite pixel_at_map1, Hq0; reflexivity).
    rewrite output_alpha in Hal by apply shape_final_alpha.
    rewrite final_alpha_no_feather in Hal by assumption.
    unfold raw_alpha, cv2.bitwise_not in Hal. rewrite pixel_at_map1 in Hal.
    destruct (pixel_at (refine_mask _ _ e0 d0) i j) as [m|] eqn:Em;
      simpl in Hal; [|discriminate].
    injection Hal as Hal. exists m. split; [reflexivity|]. split; [|congruence].
    exact (refine_mask_binary _ _ e0 d0 (green_mask_binary img lo hi) i j m Em). }
  destruct (Ha e d q Hq) as (m & Hm & Hbm & ->).
  destruct (Ha e' d' q' Hq') as (m' & Hm' & Hbm' & ->).
  destruct (MonoFacts.refine_mask_mono (green_mask img lo hi) cv2.kernel3x3
              e e' d d' MorphFacts.kernel3x3_centre He Hd) as [_ Hle].
  specialize (Hle i j m' m Hm' Hm).
  assert (H0 : Z.land (Z.lnot 0) 255 = 255) by reflexivity.
  assert (H255 : Z.land (Z.lnot 255) 255 = 0) by reflexivity.
  destruct Hbm as [-> | ->], Hbm' as [-> | ->]; rewrite ?H0, ?H255; lia.
Qed.

End MonotoneProperties.

Lemma X12_witness :
  bgra_a (mkBGRA 0 77 0 0) <= bgra_a (mkBGRA 0 77 0 255).
Proof.
  apply (X12_more_erosion_less_dilation_is_more_opaque (H := opencv)
           (one_file (one_green false false)) "in.png" "out.png"
           default_despill_strength 0 0 1 0 0
           default_lower_green default_upper_green (one_green false false)
           (one_green_output false false 77)
           [[mkBGRA 0 77 0 255; mkBGRA 255 255 255 255];
            [mkBGRA 255 255 255 255; mkBGRA 255 255 255 255]]
           0 0 (mkBGRA 0 77 0 0) (mkBGRA 0 77 0 255)).
  - lia.
  - lia.
  - lia.
  - reflexivity.
  - vm_compute. reflexivity.
  - vm_compute. reflexivity.
  - reflexivity.
  - reflexivity.
Defined.

(** ** The blur on a uniform channel *)

Module BlurFacts3.
Import cv2.

Lemma borderInterpolate_range p len :
  0 < len -> 0 <= borderInterpolate p len < len.
Proof.
  intros Hlen. unfold borderInterpolate.
  destruct (len <=? 1) eqn:El; [lia|]. apply Z.leb_gt in El. cbv zeta.
  pose proof (Z.mod_pos_bound p (2 * (len - 1)) ltac:(lia)) as Hq.
  destruct (p mod (2 * (len - 1)) <? len) eqn:Eq.
  - apply Z.ltb_lt in Eq. lia.
  - apply Z.ltb_ge in Eq. lia.
Qed.

Lemma border_sample_uniform (P : spec_float -> Prop) line p :
  line <> [] -> Forall P line -> P (border_sample line p).
Proof.
  intros Hne Hl. unfold border_sample.
  assert (Hlen : 0 < Z.of_nat (length line))
    by (destruct line; [contradiction|simpl; lia]).
  pose proof (borderInterpolate_range p _ Hlen) as Hr.
  destruct (line !! Z.to_nat (borderInterpolate p (Z.of_nat (length line))))
    as [x|] eqn:Ex.
  - exact (proj1 (Forall_lookup _ _) Hl _ _ Ex).
  - apply lookup_ge_None in Ex. lia.
Qed.

Lemma tap1D_uniform kernel line pos :
  unit_gain kernel -> line <> [] -> Forall (fun x => x = F64.one) line ->
  tap1D kernel line pos = F64.one.
Proof.
  intros Hk Hne Hl. unfold tap1D. rewrite <- Hk. f_equal.
  apply imap_ext. intros t w _. simpl. f_equal.
  apply (border_sample_uniform (fun x => x = F64.one)); assumption.
Qed.

Lemma rectangular_shape {A B} (m1 : Mat A) (m2 : Mat B) :
  shape m1 = shape m2 -> rectangular m1 -> rectangular m2.
Proof. unfold rectangular. intros <-. exact id. Qed.

Lemma rectangular_rows {A} (m : Mat A) i i' row row' :
  rectangular m -> m !! i = Some row -> m !! i' = Some row' ->
  length row' = length row.
Proof.
  unfold rectangular. intros Hr Hi Hi'. rewrite forallb_forall in Hr.
  assert (Hin : forall k r, m !! k = Some r ->
                  length r = default 0%nat (head (shape m))).
  { intros k r Hk. apply Nat.eqb_eq, Hr. apply list_elem_of_In.
    apply list_elem_of_lookup. exists k. rewrite shape_lookup, Hk. reflexivity. }
  rewrite (Hin _ _ Hi), (Hin _ _ Hi'). reflexivity.
Qed.

Lemma filter_rows_uniform kernel src :
  unit_gain kernel -> all_px (fun x => x = F64.one) src ->
  all_px (fun x => x = F64.one) (filter_rows kernel src).
Proof.
  intros Hk Hs i j y. unfold filter_rows, pixel_at.
  rewrite list_lookup_fmap.
  destruct (src !! i) as [row|] eqn:Er; simpl; [|discriminate].
  rewrite list_lookup_imap. destruct (row !! j) as [x|] eqn:Ex; simpl;
    [|discriminate].
  intros [= <-]. apply tap1D_uniform; [assumption| |].
  - intros ->. discriminate.
  - eapply all_px_row; eassumption.
Qed.

Lemma column_uniform src i j row x :
  rectangular src -> all_px (fun x => x = F64.one) src ->
  src !! i = Some row -> row !! j = Some x ->
  column src j <> [] /\ Forall (fun x => x = F64.one) (column src j).
Proof.
  intros Hr Hs Hi Hj. split.
  - unfold column. destruct src; [discriminate|]. discriminate.
  - apply Forall_forall. intros y Hy. unfold column in Hy.
    apply list_elem_of_fmap in Hy as (row' & -> & Hrow').
    apply list_elem_of_lookup in Hrow' as (i' & Hi').
    assert (is_Some (row' !! j)) as [x' Hx'].
    { apply lookup_lt_is_Some.
      rewrite (rectangular_rows src i i' row row' Hr Hi Hi').
      apply lookup_lt_is_Some. eauto. }
    rewrite Hx'. simpl. apply (Hs i' j). unfold pixel_at. rewrite Hi'. exact Hx'.
Qed.

Lemma filter_columns_uniform kernel src :
  unit_gain kernel -> rectangular src ->
  all_px (fun x => x = F64.one) src ->
  all_px (fun x => x = F64.one) (filter_columns kernel src).
Proof.
  intros Hk Hr Hs i j y. unfold filter_columns.
  rewrite (pixel_at_imap2 (fun i j _ => tap1D kernel (column src j) i)).
  unfold pixel_at. destruct (src !! i) as [row|] eqn:Ei; simpl; [|discriminate].
  destruct (row !! j) as [x|] eqn:Ej; simpl; [|discriminate].
  intros [= <-].
  destruct (column_uniform src i j row x Hr Hs Ei Ej) as [Hne Hall].
  apply tap1D_uniform; assumption.
Qed.

(** A blur whose coefficients add up to exactly 1.0 leaves a channel that
    is 1.0 everywhere as it is, borders included. *)
Lemma GaussianBlur_uniform `{Imgproc} src ksize :
  unit_gain (getGaussianKernel ksize) -> rectangular src ->
  all_px (fun x => x = F64.one) src ->
  all_px (fun x => x = F64.one) (GaussianBlur src ksize).
Proof.
  intros Hk Hr Hs. unfold GaussianBlur.
  apply filter_columns_uniform; [assumption| |].
  - apply (rectangular_shape src); [|assumption].
    symmetry. apply BlurFacts.shape_filter_rows.
  - apply filter_rows_uniform; assumption.
Qed.

(** OpenCV's fixed coefficients for the sizes 1, 3, 5 and 7. *)
Lemma small_kernel_unit_gain large_kernel ksize :
  1 <= ksize <= 7 -> ksize mod 2 = 1 ->
  unit_gain (getGaussianKernel (Imgproc := OpenCV.imgproc large_kernel) ksize).
Proof.
  intros Hk Hodd.
  assert (Hcases : ksize = 1 \/ ksize = 3 \/ ksize = 5 \/ ksize = 7).
  { assert (ksize = 1 \/ ksize = 2 \/ ksize = 3 \/ ksize = 4 \/ ksize = 5 \/
            ksize = 6 \/ ksize = 7) as Hc by lia.
    destruct Hc as [->|[->|[->|[->|[->|[->| ->]]]]]]; try discriminate; auto. }
  destruct Hcases as [->|[->|[->| ->]]]; vm_compute; reflexivity.
Qed.

Lemma feather_opaque large_kernel a f :
  f <= 7 -> rectangular a -> all_px (fun v => v = 255) a ->
  all_px (fun v => v = 255) (feather (H := OpenCV.imgproc large_kernel) a f).
Proof.
  intros Hf Hr Ha. unfold feather.
  set (af := np.divide_float (np.astype_float a) (F64.of_Z 255)).
  assert (Haf : all_px (fun x => x = F64.one) af).
  { unfold af, np.divide_float, np.astype_float. rewrite map1_map1.
    eapply all_px_map1; [|exact Ha]. intros x ->. vm_compute. reflexivity. }
  assert (Hraf : rectangular af).
  { apply (rectangular_shape a); [|assumption]. unfold af, np.divide_float,
      np.astype_float. rewrite !shape_map1. reflexivity. }
  assert (Hb : all_px (fun x => x = F64.one)
                 (if f >? 0
                  then GaussianBlur (H := OpenCV.imgproc large_kernel) af
                         (if f mod 2 =? 0 then f + 1 else f)
                  else af)).
  { destruct (Z.gtb_spec f 0) as [Hpos|Hneg]; [|assumption].
    apply GaussianBlur_uniform; [|assumption|assumption].
    destruct (Z.eqb_spec (f mod 2) 0) as [He|Ho].
    - apply small_kernel_unit_gain;
        [Z.to_euclidean_division_equations; lia|].
      rewrite Z.add_mod, He by lia. reflexivity.
    - apply small_kernel_unit_gain; [lia|].
      pose proof (Z.mod_pos_bound f 2 ltac:(lia)). lia. }
  unfold np.astype_uint8, np.multiply_float. rewrite map1_map1.
  eapply all_px_map1; [|exact Hb]. intros x ->. vm_compute. reflexivity.
Qed.

End BlurFacts3.

(** Property X13.  With OpenCV's fixed coefficients, that is for every
    feather amount up to 7 (the default 5 included), an image without any
    pixel inside the colour bounds is written fully opaque for all erosion
    and dilation counts: the blur does not darken a uniform alpha channel,
    not even at the borders. *)
Theorem X13_image_outside_bounds_stays_opaque_under_small_blur
    large_kernel imread ip op s f e d lo hi img :
  f <= 7 ->
  rectangular img ->
  imread ip = Some img ->
  all_px (out_of_bounds (H := OpenCV.imgproc large_kernel) lo hi) img ->
  exists bgra,
    remove_background_advanced (H := OpenCV.imgproc large_kernel)
      imread ip op s f e d lo hi = Saved op bgra /\
    shape bgra = shape img /\
    all_px (fun q => bgra_a q = 255) bgra.
Proof.
  intros Hf Hr Hread Hall.
  rewrite (remove_background_advanced_saved _ _ _ _ _ _ _ _ _ _ Hread).
  eexists. split; [reflexivity|].
  split; [apply shape_output, shape_final_alpha|].
  assert (Hop : all_px (fun v => v = 255)
            (final_alpha (H := OpenCV.imgproc large_kernel) img f e d lo hi)).
  { unfold final_alpha. apply BlurFacts3.feather_opaque; [assumption| |].
    - apply (BlurFacts3.rectangular_shape img); [|assumption].
      rewrite shape_raw_alpha, shape_refine_mask, shape_green_mask.
      reflexivity.
    - apply (all_px_map1 (fun v => v = 0)); [intros x ->; reflexivity|].
      apply refine_mask_zero; [exact MorphFacts.kernel3x3_centre|].
      intros i j c Hc. rewrite green_mask_pixel in Hc.
      destruct (pixel_at img i j) as [p|] eqn:Ep; simpl in Hc; [|discriminate].
      injection Hc as <-. exact (Hall i j p Ep). }
  intros i j q Hq.
  assert (Ha : pixel_at (map1 bgra_a
                 (set_alpha (cv2.cvtColor_BGR2BGRA (despill img s))
                    (final_alpha (H := OpenCV.imgproc large_kernel)
                       img f e d lo hi))) i j
               = Some (bgra_a q))
    by (rewrite pixel_at_map1, Hq; reflexivity).
  rewrite output_alpha in Ha by apply shape_final_alpha.
  exact (Hop i j _ Ha).
Qed.

Lemma replicate_all {A} (P : A -> Prop) (x : A) h w :
  P x -> all_px P (replicate h (replicate w x)).
Proof. intros Hx i j y Hy. apply lookup_replicate_px in Hy as ->. exact Hx. Qed.

Lemma X13_witness :
  exists bgra,
    remove_background_advanced (H := opencv)
      (one_file (replicate 3 (replicate 4 pure_white)))
      "in.png" "out.png" default_despill_strength default_feather_amount
      default_erode_iterations default_dilate_iterations
      default_lower_green default_upper_green = Saved "out.png" bgra /\
    shape bgra = shape (replicate 3 (replicate 4 pure_white)) /\
    all_px (fun q => bgra_a q = 255) bgra.
Proof.
  apply (X13_image_outside_bounds_stays_opaque_under_small_blur (fun _ => [])
           (one_file (replicate 3 (replicate 4 pure_white)))
           "in.png" "out.png" default_despill_strength default_feather_amount
           default_erode_iterations default_dilate_iterations
           default_lower_green default_upper_green
           (replicate 3 (replicate 4 pure_white))).
  - unfold default_feather_amount. lia.
  - reflexivity.
  - reflexivity.
  - apply replicate_all. reflexivity.
Defined.

(** ** The blur at a position with a uniform footprint *)

Module FootprintFacts.
Import cv2 F64Facts BlurFacts BlurFacts2 BlurFacts3.

Lemma rectangular_width {A} (m : Mat A) i row :
  rectangular m -> m !! i = Some row -> length row = width m.
Proof.
  intros Hr Hi. destruct m as [|r0 m]; [discriminate|].
  apply (rectangular_rows (r0 :: m) 0 i r0 row Hr eq_refl Hi).
Qed.

Lemma width_map1 {A B} (f : A -> B) (m : Mat A) : width (map1 f m) = width m.
Proof. destruct m as [|r0 m]; [reflexivity|]. unfold width. simpl. apply length_fmap. Qed.

(** A 1-D filter output stays in a class of samples when every sample it
    reads lies in the class and the coefficients map the class into
    itself. *)
Lemma tap1D_closed (P : spec_float -> Prop) kernel line pos :
  (forall g : nat -> spec_float,
     (forall t, (t < length kernel)%nat -> P (g t)) ->
     P (foldl F64.add F64.zero (imap (fun t w => F64.mul w (g t)) kernel))) ->
  (forall t, (t < length kernel)%nat ->
     P (border_sample line
          (Z.of_nat pos + Z.of_nat t - Z.of_nat (length kernel) / 2))) ->
  P (tap1D kernel line pos).
Proof.
  intros Hc Hs. unfold tap1D.
  exact (Hc (fun t => border_sample line
                        (Z.of_nat pos + Z.of_nat t - Z.of_nat (length kernel) / 2))
            Hs).
Qed.

Lemma closed_one kernel (g : nat -> spec_float) :
  unit_gain kernel ->
  (forall t, (t < length kernel)%nat -> g t = F64.one) ->
  foldl F64.add F64.zero (imap (fun t w => F64.mul w (g t)) kernel) = F64.one.
Proof.
  intros Hk Hg. unfold unit_gain in Hk. etransitivity; [|exact Hk].
  f_equal. apply imap_ext.
  intros t w Hw. simpl. rewrite Hg; [reflexivity|].
  apply lookup_lt_Some in Hw. exact Hw.
Qed.

Lemma closed_zero kernel (g : nat -> spec_float) :
  forallb F64.is_finite kernel = true ->
  (forall t, (t < length kernel)%nat -> zero_px (g t)) ->
  zero_px (foldl F64.add F64.zero (imap (fun t w => F64.mul w (g t)) kernel)).
Proof.
  intros Hk Hg. apply foldl_add_zero; [reflexivity|].
  apply Forall_forall. intros y Hy.
  apply elem_of_lookup_imap_1 in Hy as (t & w & -> & Hw).
  apply mul_zero_l.
  - rewrite forallb_forall in Hk. apply Hk, list_elem_of_In.
    apply list_elem_of_lookup. eauto.
  - apply Hg. apply lookup_lt_Some in Hw. exact Hw.
Qed.

(** The separable filter at one position: when every sample of the
    footprint lies in a class the coefficients map into itself, so does the
    output. *)
Lemma filter_footprint (P : spec_float -> Prop) kernel src i j :
  (forall g : nat -> spec_float,
     (forall t, (t < length kernel)%nat -> P (g t)) ->
     P (foldl F64.add F64.zero (imap (fun t w => F64.mul w (g t)) kernel))) ->
  rectangular src ->
  is_Some (pixel_at src i j) ->
  (forall t u, (t < length kernel)%nat -> (u < length kernel)%nat ->
     exists x,
       pixel_at src
         (Z.to_nat (borderInterpolate
            (Z.of_nat i + Z.of_nat t - Z.of_nat (length kernel) / 2)
            (Z.of_nat (length src))))
         (Z.to_nat (borderInterpolate
            (Z.of_nat j + Z.of_nat u - Z.of_nat (length kernel) / 2)
            (Z.of_nat (width src)))) = Some x /\ P x) ->
  exists y,
    pixel_at (filter_columns kernel (filter_rows kernel src)) i j = Some y /\
    P y.
Proof.
  intros Hc Hr [x0 Hx0] Hfoot.
  unfold pixel_at in Hx0.
  destruct (src !! i) as [row|] eqn:Ei; simpl in Hx0; [|discriminate].
  pose proof (rectangular_width src i row Hr Ei) as Hw.
  assert (Hj : (j < length row)%nat) by (apply lookup_lt_is_Some; eauto).
  set (R := filter_rows kernel src).
  assert (HR : forall i' row', src !! i' = Some row' ->
             R !! i' = Some (imap (fun j _ => tap1D kernel row' j) row')).
  { intros i' row' Hi'. unfold R, filter_rows. rewrite list_lookup_fmap, Hi'.
    reflexivity. }
  unfold filter_columns.
  rewrite (pixel_at_imap2 (fun i j _ => tap1D kernel (column R j) i)).
  assert (HRij : pixel_at R i j = Some (tap1D kernel row j)).
  { unfold pixel_at. rewrite (HR i row Ei). simpl. rewrite list_lookup_imap, Hx0.
    reflexivity. }
  rewrite HRij. simpl. eexists. split; [reflexivity|].
  apply tap1D_closed; [exact Hc|]. intros t Ht.
  destruct (Hfoot t t Ht Ht) as (x & Hx & _).
  unfold pixel_at in Hx.
  set (i' := Z.to_nat (borderInterpolate
                (Z.of_nat i + Z.of_nat t - Z.of_nat (length kernel) / 2)
                (Z.of_nat (length src)))) in *.
  destruct (src !! i') as [row'|] eqn:Ei'; simpl in Hx; [|discriminate].
  pose proof (rectangular_width src i' row' Hr Ei') as Hw'.
  assert (Hcol : border_sample (column R j)
                   (Z.of_nat i + Z.of_nat t - Z.of_nat (length kernel) / 2) =
                 tap1D kernel row' j).
  { unfold border_sample, column. rewrite length_fmap.
    replace (length R) with (length src)
      by (unfold R, filter_rows; rewrite length_fmap; reflexivity).
    fold i'. rewrite list_lookup_fmap, (HR i' row' Ei'). simpl.
    rewrite list_lookup_imap.
    destruct (row' !! j) as [xj|] eqn:Exj; [reflexivity|].
    apply lookup_ge_None in Exj. lia. }
  rewrite Hcol. apply tap1D_closed; [exact Hc|]. intros u Hu.
  destruct (Hfoot t u Ht Hu) as (x' & Hx' & HP).
  fold i' in Hx'. unfold pixel_at in Hx'. rewrite Ei' in Hx'. simpl in Hx'.
  unfold border_sample. rewrite Hw', Hx'. exact HP.
Qed.

Lemma borderInterpolate_nonneg p len : 0 <= borderInterpolate p len.
Proof.
  unfold borderInterpolate. destruct (len <=? 1) eqn:El; [lia|].
  apply Z.leb_gt in El.
  pose proof (borderInterpolate_range p len ltac:(lia)) as Hr.
  unfold borderInterpolate in Hr. rewrite (proj2 (Z.leb_gt len 1)) in Hr by lia.
  lia.
Qed.

Lemma blur_size_pos f : 0 < f -> 0 < blur_size f /\ blur_size f mod 2 = 1.
Proof.
  intros Hf. unfold blur_size. destruct (Z.eqb_spec (f mod 2) 0) as [He|Ho].
  - split; [lia|]. Z.to_euclidean_division_equations; lia.
  - split; [lia|]. Z.to_euclidean_division_equations; lia.
Qed.

Lemma footprint_pixel (a : Mat Z) ksize i j c t u :
  footprint_uniform a ksize i j c ->
  0 <= t < ksize -> 0 <= u < ksize ->
  pixel_at a
    (Z.to_nat (borderInterpolate (Z.of_nat i + t - ksize / 2)
                 (Z.of_nat (length a))))
    (Z.to_nat (borderInterpolate (Z.of_nat j + u - ksize / 2)
                 (Z.of_nat (width a)))) = Some c.
Proof.
  intros Hfp Ht Hu. specialize (Hfp t u Ht Hu). unfold sample_at in Hfp.
  rewrite !(proj2 (Z.leb_le 0 _)) in Hfp by apply borderInterpolate_nonneg.
  exact Hfp.
Qed.

(** The footprint holds the position itself. *)
Lemma footprint_centre (a : Mat Z) ksize i j c :
  0 < ksize ->
  rectangular a ->
  is_Some (pixel_at a i j) ->
  footprint_uniform a ksize i j c ->
  pixel_at a i j = Some c.
Proof.
  intros Hk Hr [x Hx] Hfp.
  pose proof (footprint_pixel a ksize i j c (ksize / 2) (ksize / 2) Hfp
                ltac:(Z.to_euclidean_division_equations; lia)
                ltac:(Z.to_euclidean_division_equations; lia)) as Hp.
  unfold pixel_at in Hx.
  destruct (a !! i) as [row|] eqn:Ei; simpl in Hx; [|discriminate].
  pose proof (rectangular_width a i row Hr Ei) as Hw.
  apply lookup_lt_Some in Ei. apply lookup_lt_Some in Hx.
  replace (Z.of_nat i + ksize / 2 - ksize / 2) with (Z.of_nat i) in Hp by lia.
  replace (Z.of_nat j + ksize / 2 - ksize / 2) with (Z.of_nat j) in Hp by lia.
  rewrite !borderInterpolate_inside in Hp by lia.
  rewrite !Nat2Z.id in Hp. exact Hp.
Qed.

(** Feathering at a position whose footprint is uniform in the raw alpha:
    with coefficients that add up to exactly 1.0 the sample is kept. *)
Lemma feather_footprint `{Imgproc} a f i j c :
  0 < f ->
  exact_kernel (getGaussianKernel (blur_size f)) (blur_size f) ->
  rectangular a -> all_px binary a ->
  is_Some (pixel_at a i j) ->
  footprint_uniform a (blur_size f) i j c ->
  pixel_at (feather a f) i j = Some c.
Proof.
  intros Hf (Hlen & Hgain & Hfin) Hr Hbin Hpx Hfp.
  destruct (blur_size_pos f Hf) as [Hks _].
  assert (Hc : binary c).
  { pose proof (footprint_pixel a _ i j c 0 0 Hfp ltac:(lia) ltac:(lia)) as Hp.
    exact (Hbin _ _ _ Hp). }
  unfold feather. rewrite (proj2 (Z.gtb_lt f 0)) by lia.
  fold (blur_size f).
  set (phi := fun v => F64.div (F64.of_Z v) (F64.of_Z 255)).
  assert (Haf : np.divide_float (np.astype_float a) (F64.of_Z 255) = map1 phi a).
  { unfold np.divide_float, np.astype_float. rewrite map1_map1. reflexivity. }
  rewrite Haf. unfold np.astype_uint8, np.multiply_float.
  rewrite map1_map1, pixel_at_map1. unfold GaussianBlur.
  set (kernel := getGaussianKernel (blur_size f)) in *.
  assert (Hraf : rectangular (map1 phi a))
    by (apply (rectangular_shape a); [symmetry; apply shape_map1|assumption]).
  assert (Hpaf : is_Some (pixel_at (map1 phi a) i j))
    by (rewrite pixel_at_map1; destruct Hpx as [x ->]; eauto).
  assert (Hfoot : forall P : spec_float -> Prop, P (phi c) ->
            forall t u, (t < length kernel)%nat -> (u < length kernel)%nat ->
            exists x,
              pixel_at (map1 phi a)
                (Z.to_nat (borderInterpolate
                   (Z.of_nat i + Z.of_nat t - Z.of_nat (length kernel) / 2)
                   (Z.of_nat (length (map1 phi a)))))
                (Z.to_nat (borderInterpolate
                   (Z.of_nat j + Z.of_nat u - Z.of_nat (length kernel) / 2)
                   (Z.of_nat (width (map1 phi a))))) = Some x /\ P x).
  { intros P HP t u Ht Hu. exists (phi c). split; [|exact HP].
    rewrite pixel_at_map1, width_map1. unfold map1 at 1. rewrite length_fmap.
    rewrite Hlen.
    rewrite (footprint_pixel a (blur_size f) i j c (Z.of_nat t) (Z.of_nat u) Hfp)
      by lia.
    reflexivity. }
  destruct Hc as [-> | ->].
  - destruct (filter_footprint zero_px kernel (map1 phi a) i j) as (y & -> & Hy);
      [intros g Hg; apply closed_zero; assumption|assumption|assumption| |].
    + apply Hfoot. reflexivity.
    + simpl. f_equal. unfold np.float_to_uint8.
      rewrite trunc_zero; [reflexivity|]. apply mul_zero_r; [assumption|reflexivity].
  - destruct (filter_footprint (fun x => x = F64.one) kernel (map1 phi a) i j)
      as (y & -> & ->);
      [intros g Hg; apply closed_one; assumption|assumption|assumption| |].
    + apply Hfoot. vm_compute. reflexivity.
    + vm_compute. reflexivity.
Qed.

(** OpenCV's fixed coefficients for the sizes 1, 3, 5 and 7 add up to
    exactly 1.0. *)
Lemma small_kernel_exact large_kernel f :
  0 < f <= 7 ->
  exact_kernel
    (getGaussianKernel (Imgproc := OpenCV.imgproc large_kernel) (blur_size f))
    (blur_size f).
Proof.
  intros Hf.
  assert (Hcases : f = 1 \/ f = 2 \/ f = 3 \/ f = 4 \/ f = 5 \/ f = 6 \/ f = 7)
    by lia.
  destruct Hcases as [->|[->|[->|[->|[->|[->| ->]]]]]];
    (split; [|split]; vm_compute; reflexivity).
Qed.

End FootprintFacts.

(** A 1x6 strip, one green pixel then five white ones, feathered with
    amount 3 and no erosion or dilation: the two pixels whose footprint
    holds both colours get an intermediate alpha, the others keep 255. *)
Lemma blur_band_example :
  final_alpha (H := opencv)
    [[pure_green; pure_white; pure_white; pure_white; pure_white; pure_white]]
    3 0 0 default_lower_green default_upper_green =
  [[127; 191; 255; 255; 255; 255]].
Proof. vm_compute. reflexivity. Qed.


